(** * BirthdayLove: the picture-frame component

    A shallow embedding of the React / three.js component [BirthdayLove]
    and of the hooks it is built from.

    Numbers.  Every JavaScript [number] is read as a real number: sums,
    products and comparisons are the exact ones, and [Math.exp] is the real
    exponential.  Rounding, infinities and NaN are outside this reading;
    where rounding decides a statement (the blend factors), the binary64
    values are modelled beside it with [round64].

    Objects.  A JavaScript object that React compares by identity (a props
    array, a memoised vector) carries an explicit identity [ident]; the
    scratch vectors the frame callback mutates live in the component
    instance and are threaded through every step.

    External code.  [Quaternion.setFromEuler] and [Quaternion.slerp] belong
    to three.js; the component only calls them, so the development takes
    them as section variables and holds for every implementation. *)

From Stdlib Require Import Reals Lra Lia List String Bool PeanoNat.
Import ListNotations.
Local Open Scope R_scope.

(** ** three.js value types *)

Module Vector3.

Record t : Type := new { x : R; y : R; z : R }.

(** [new Vector3(...a)] for a three-element array. *)
Definition fromArray (a : R * R * R) : t :=
  let '(a0, a1, a2) := a in new a0 a1 a2.

(** [this.copy(v)]: the contents of [this] afterwards. *)
Definition copy (this v : t) : t := new (x v) (y v) (z v).

(** [this.add(v)]. *)
Definition add (this v : t) : t :=
  new (x this + x v) (y this + y v) (z this + z v).

(** [this.multiplyScalar(s)]. *)
Definition multiplyScalar (this : t) (s : R) : t :=
  new (x this * s) (y this * s) (z this * s).

(** [this.lerp(v, alpha)], in exact arithmetic like every operation
    here. *)
Definition lerp (this v : t) (alpha : R) : t :=
  new (x this + (x v - x this) * alpha)
      (y this + (y v - y this) * alpha)
      (z this + (z v - z this) * alpha).

(** [this.y = v]. *)
Definition setY (this : t) (v : R) : t := new (x this) v (z this).

End Vector3.

Module Euler.

(** [new Euler(x, y, z)], in the default rotation order. *)
Record t : Type := new { x : R; y : R; z : R }.

Definition fromArray (a : R * R * R) : t :=
  let '(a0, a1, a2) := a in new a0 a1 a2.

End Euler.

Module Quaternion.

Record t : Type := mk { x : R; y : R; z : R; w : R }.

(** [new Quaternion()]. *)
Definition identity : t := mk 0 0 0 1.

(** [this.copy(q)]. *)
Definition copy (this q : t) : t := mk (x q) (y q) (z q) (w q).

(** The rotation-order XYZ formula of three.js, one implementation of the
    section variable [setFromEuler] below; the examples run on it. *)
Definition setFromEulerXYZ (e : Euler.t) : t :=
  let c1 := cos (Euler.x e / 2) in
  let c2 := cos (Euler.y e / 2) in
  let c3 := cos (Euler.z e / 2) in
  let s1 := sin (Euler.x e / 2) in
  let s2 := sin (Euler.y e / 2) in
  let s3 := sin (Euler.z e / 2) in
  mk (s1 * c2 * c3 + c1 * s2 * s3)
     (c1 * s2 * c3 - s1 * c2 * s3)
     (c1 * c2 * s3 + s1 * s2 * c3)
     (c1 * c2 * c3 - s1 * s2 * s3).

(** Componentwise blend, an implementation of the section variable
    [slerp] below that returns [this] at [t = 0]; the examples run on
    it. *)
Definition blend (this qb : t) (a : R) : t :=
  mk (x this + (x qb - x this) * a) (y this + (y qb - y this) * a)
     (z this + (z qb - z this) * a) (w this + (w qb - w this) * a).

End Quaternion.

(** The scene node behind [groupRef]: only its transform is used. *)
Record Group : Type := mkGroup {
  position : Vector3.t;
  quaternion : Quaternion.t
}.

(** The camera handed out by [useThree]: its position and the unit vector
    [getWorldDirection] writes into its argument. *)
Record Camera : Type := mkCamera {
  cameraPosition : Vector3.t;
  worldDirection : Vector3.t
}.

Definition getWorldDirection (camera : Camera) (target : Vector3.t) : Vector3.t :=
  Vector3.copy target (worldDirection camera).

(** ** Props *)

(** Identity of a JavaScript object, as [Object.is] sees it. *)
Definition Ref : Type := nat.

Record Obj (A : Type) : Type := mkObj { ident : Ref; val : A }.
Arguments mkObj {A} _ _.
Arguments ident {A} _.
Arguments val {A} _.

(** [imageScale?: number | [number, number]]. *)
Inductive ImageScale : Type :=
| Scalar (s : R)
| Pair (sx sy : R).

(** The component's own props of [BirthdayLoveProps]; an optional prop that
    is absent is [None].  [onToggle] is the owner's callback: calling it is
    the action [OnToggle] below.  The pass-through props of the group
    element ([...groupProps], spread onto the node after [ref={groupRef}])
    are not fields: a [ref] among them decides what [groupRef] holds and is
    the [current] argument of [mountWith]; the transform the renderer gives
    the node from them is the initial transform of that node, and they are
    taken to be the same from render to render. *)
Record Props : Type := mkProps {
  id : string;
  image : string;
  imageScale : option ImageScale;
  imageOffset : option (R * R * R);
  imageInset : option R;
  tablePosition : Obj (R * R * R);
  tableRotation : Obj (R * R * R);
  isActive : bool
}.

Definition with_imageInset (v : option R) (p : Props) : Props :=
  mkProps (id p) (image p) (imageScale p) (imageOffset p) v
          (tablePosition p) (tableRotation p) (isActive p).

Definition DEFAULT_IMAGE_SCALE : ImageScale := Pair 0.82 0.82.
Definition CAMERA_DISTANCE : R := 1.5.
Definition CAMERA_Y_FLOOR : R := 0.8.
Definition HOVER_LIFT : R := 0.05.

(** Default parameter values of the destructured props. *)
Definition imageScaleArg (p : Props) : ImageScale :=
  match imageScale p with Some s => s | None => DEFAULT_IMAGE_SCALE end.

Definition imageInsetArg (p : Props) : R :=
  match imageInset p with Some v => v | None => 0.01 end.

(** ** Layout *)

(** What the component measures on the loaded frame model: the size and the
    centre of [new Box3().setFromObject(frameScene)]. *)
Record FrameBox : Type := mkFrameBox {
  frameSize : Vector3.t;
  frameCenter : Vector3.t
}.

Definition scaledImage (p : Props) : R * R :=
  match imageScaleArg p with
  | Pair sx sy => (sx, sy)
  | Scalar s => (s, s)
  end.

Definition imageScaleX (p : Props) : R := fst (scaledImage p).
Definition imageScaleY (p : Props) : R := snd (scaledImage p).

Definition imageWidth (b : FrameBox) (p : Props) : R :=
  Vector3.x (frameSize b) * imageScaleX p.

Definition imageHeight (b : FrameBox) (p : Props) : R :=
  Vector3.y (frameSize b) * imageScaleY p.

Definition imageOffsetArg (p : Props) : R * R * R :=
  match imageOffset p with Some o => o | None => (0, 0.05, -0.27) end.

Definition imagePosition (b : FrameBox) (p : Props) : R * R * R :=
  let '(offsetX, offsetY, offsetZ) := imageOffsetArg p in
  (Vector3.x (frameCenter b) + offsetX,
   Vector3.y (frameCenter b) + offsetY,
   Vector3.z (frameCenter b) + offsetZ).

(** ** Event handlers *)

(** What a handler does, in order. *)
Inductive Action : Type :=
| StopPropagation
| SetIsHovered (v : bool)
| OnToggle (id : string).

Definition handlePointerOver (isActive : bool) : list Action :=
  StopPropagation :: (if negb isActive then [SetIsHovered true] else []).

Definition handlePointerOut : list Action :=
  [StopPropagation; SetIsHovered false].

Definition handlePointerDown : list Action :=
  [StopPropagation].

Definition handleClick (id : string) : list Action :=
  [StopPropagation; OnToggle id].

(** ** Rendered tree *)

(** The four handlers the mesh receives, as the closures of this render. *)
Record MeshHandlers : Type := mkHandlers {
  onPointerOver : list Action;
  onPointerOut : list Action;
  onPointerDown : list Action;
  onClick : list Action
}.

#[warnings="-register-all"]
Inductive Element : Type :=
| GroupEl (rotation : option (R * R * R)) (children : list Element)
| PrimitiveEl (object : FrameBox)
| MeshEl (position : R * R * R) (rotation : R * R * R) (map : string)
         (handlers : MeshHandlers) (children : list Element)
| PlaneGeometryEl (args : R * R)
| ChildrenEl.

(** What one call of the component function produces: the cursor flag given
    to [useCursor] and the returned tree. *)
Record Rendered : Type := mkRendered {
  cursorPointer : bool;
  tree : Element
}.

Definition BirthdayLove (b : FrameBox) (p : Props) (isHovered : bool) : Rendered :=
  mkRendered
    (isHovered || isActive p)
    (GroupEl None
       [GroupEl (Some (0.04, 0, 0))
          [PrimitiveEl b;
           MeshEl (imagePosition b p) (0.435, PI, 0) (image p)
             (mkHandlers (handlePointerOver (isActive p)) handlePointerOut
                         handlePointerDown (handleClick (id p)))
             [PlaneGeometryEl (imageWidth b p, imageHeight b p)];
           ChildrenEl]]).

(** ** Hooks *)

(** One entry of a dependency array. *)
Inductive Dep : Type :=
| DepRef (r : Ref)
| DepBool (b : bool).

(** [Object.is] on dependency entries. *)
Definition depIs (a b : Dep) : bool :=
  match a, b with
  | DepRef r1, DepRef r2 => Nat.eqb r1 r2
  | DepBool b1, DepBool b2 => Bool.eqb b1 b2
  | _, _ => false
  end.

Fixpoint depsEqual (prev next : list Dep) : bool :=
  match prev, next with
  | [], [] => true
  | a :: prev', b :: next' => depIs a b && depsEqual prev' next'
  | _, _ => false
  end.

Record MemoCell (A : Type) : Type := mkMemo {
  memoDeps : list Dep;
  memoValue : Obj A
}.
Arguments mkMemo {A} _ _.
Arguments memoDeps {A} _.
Arguments memoValue {A} _.

(** [useMemo(create, deps)]: the cached object is kept while the
    dependencies are the same; otherwise [create] runs and its result is a
    new object, allocated at [next]. *)
Definition useMemo {A : Type} (cell : option (MemoCell A)) (create : unit -> A)
    (deps : list Dep) (next : Ref) : MemoCell A * Ref :=
  match cell with
  | Some c =>
      if depsEqual (memoDeps c) deps then (c, next)
      else (mkMemo deps (mkObj next (create tt)), S next)
  | None => (mkMemo deps (mkObj next (create tt)), S next)
  end.

(** Whether [useEffect(effect, deps)] runs its effect after this render. *)
Definition effectFires (prev : option (list Dep)) (deps : list Dep) : bool :=
  match prev with
  | Some d => negb (depsEqual d deps)
  | None => true
  end.

(** ** The mounted component *)

Record Instance : Type := mkInstance {
  props : Props;
  isHovered : bool;
  groupRef : option Group;
  defaultPosition : MemoCell Vector3.t;
  defaultQuaternion : MemoCell Quaternion.t;
  poseEffectDeps : list Dep;
  hoverEffectDeps : list Dep;
  tmpPosition : Vector3.t;
  tmpQuaternion : Quaternion.t;
  tmpDirection : Vector3.t;
  heapNext : Ref
}.

Definition set_props (v : Props) (s : Instance) : Instance :=
  mkInstance v (isHovered s) (groupRef s) (defaultPosition s)
    (defaultQuaternion s) (poseEffectDeps s) (hoverEffectDeps s)
    (tmpPosition s) (tmpQuaternion s) (tmpDirection s) (heapNext s).

Definition set_isHovered (v : bool) (s : Instance) : Instance :=
  mkInstance (props s) v (groupRef s) (defaultPosition s)
    (defaultQuaternion s) (poseEffectDeps s) (hoverEffectDeps s)
    (tmpPosition s) (tmpQuaternion s) (tmpDirection s) (heapNext s).

Definition set_groupRef (v : option Group) (s : Instance) : Instance :=
  mkInstance (props s) (isHovered s) v (defaultPosition s)
    (defaultQuaternion s) (poseEffectDeps s) (hoverEffectDeps s)
    (tmpPosition s) (tmpQuaternion s) (tmpDirection s) (heapNext s).

Definition set_tmpPosition (v : Vector3.t) (s : Instance) : Instance :=
  mkInstance (props s) (isHovered s) (groupRef s) (defaultPosition s)
    (defaultQuaternion s) (poseEffectDeps s) (hoverEffectDeps s)
    v (tmpQuaternion s) (tmpDirection s) (heapNext s).

Definition set_tmpQuaternion (v : Quaternion.t) (s : Instance) : Instance :=
  mkInstance (props s) (isHovered s) (groupRef s) (defaultPosition s)
    (defaultQuaternion s) (poseEffectDeps s) (hoverEffectDeps s)
    (tmpPosition s) v (tmpDirection s) (heapNext s).

Definition set_tmpDirection (v : Vector3.t) (s : Instance) : Instance :=
  mkInstance (props s) (isHovered s) (groupRef s) (defaultPosition s)
    (defaultQuaternion s) (poseEffectDeps s) (hoverEffectDeps s)
    (tmpPosition s) (tmpQuaternion s) v (heapNext s).

(** [cameraOffset]: created once, only ever read. *)
Definition cameraOffset : Vector3.t := Vector3.new 0 (-0.05) 0.

(** The effect on [[defaultPosition, defaultQuaternion]]. *)
Definition poseEffect (defaultPosition : Vector3.t)
    (defaultQuaternion : Quaternion.t) (current : option Group) : option Group :=
  match current with
  | None => None
  | Some group =>
      Some (mkGroup (Vector3.copy (position group) defaultPosition)
                    (Quaternion.copy (quaternion group) defaultQuaternion))
  end.

(** The effect on [[isActive]]: the value of [isHovered] it leaves. *)
Definition hoverEffect (isActive isHovered : bool) : bool :=
  if negb isActive then false else isHovered.

(** [1 - Math.exp(-delta * 12)] and [1 - Math.exp(-delta * 10)] read in
    exact real arithmetic; [lerpAlpha64] and [slerpAlpha64] below are the
    values binary64 gives them. *)
Definition lerpAlpha (delta : R) : R := 1 - exp (- delta * 12).
Definition slerpAlpha (delta : R) : R := 1 - exp (- delta * 10).

(** The active branch of the frame callback, statement by statement. *)
Definition activeTarget (camera : Camera) (s : Instance) : Instance :=
  let s := set_tmpPosition (Vector3.copy (tmpPosition s) (cameraPosition camera)) s in
  let s := set_tmpDirection (getWorldDirection camera (tmpDirection s)) s in
  let s := set_tmpDirection (Vector3.copy (tmpDirection s) (tmpDirection s)) s in
  let s := set_tmpDirection (Vector3.multiplyScalar (tmpDirection s) CAMERA_DISTANCE) s in
  let s := set_tmpPosition (Vector3.add (tmpPosition s) (tmpDirection s)) s in
  let s := set_tmpPosition (Vector3.add (tmpPosition s) cameraOffset) s in
  if Rlt_dec (Vector3.y (tmpPosition s)) CAMERA_Y_FLOOR
  then set_tmpPosition (Vector3.setY (tmpPosition s) CAMERA_Y_FLOOR) s
  else s.

(** The inactive branch of the frame callback. *)
Definition tableTarget (s : Instance) : Instance :=
  let s := set_tmpPosition
             (Vector3.copy (tmpPosition s) (val (memoValue (defaultPosition s)))) s in
  let s := if isHovered s
           then set_tmpPosition
                  (Vector3.setY (tmpPosition s)
                     (Vector3.y (tmpPosition s) + HOVER_LIFT)) s
           else s in
  set_tmpQuaternion
    (Quaternion.copy (tmpQuaternion s) (val (memoValue (defaultQuaternion s)))) s.

Inductive Event : Type := PointerOver | PointerOut | PointerDown | Click.

Inductive Step : Type :=
| Render (p : Props)
| Pointer (e : Event)
| Frame (camera : Camera) (delta : R).

(** ** Binary64 arithmetic

    The blend factors are computed in binary64.  [round64] is rounding to
    the nearest binary64 number, ties to even, on the reals: 53
    significant bits, with the exponent left unbounded (overflow and
    gradual underflow play no part at the magnitudes used below). *)







(** ** The picture material *)

(** [new MeshStandardMaterial({ map, roughness, metalness, side })]; [map]
    is the identity of the texture object. *)
Record Material : Type := mkMaterial {
  materialMap : Ref;
  roughness : R;
  metalness : R;
  doubleSide : bool
}.

Definition createPictureMaterial (pictureTexture : Ref) (_ : unit) : Material :=
  mkMaterial pictureTexture 0.08 0 true.

(** The hooks that own the material: the memo cell on [[pictureTexture]]
    and the effect on [[pictureMaterial]], whose cleanup disposes the
    material its closure captured.  [disposed] lists the materials disposed
    so far, latest first; [dropped] lists the materials made by renders
    whose result React threw away, which no hook refers to. *)
Record MaterialHooks : Type := mkMaterialHooks {
  pictureMaterial : MemoCell Material;
  disposeEffectDeps : list Dep;
  pendingDispose : Ref;
  disposed : list Ref;
  dropped : list Ref;
  materialNext : Ref
}.

(** A render after the mount: React either commits it, or runs the
    component function and discards the result (a second StrictMode
    invocation, an interrupted or suspended render). *)
Inductive MaterialRender : Type :=
| Committed (pictureTexture : Ref)
| Discarded (pictureTexture : Ref).

(** First committed render with the texture [useTexture(image)] returned,
    after [discardedBefore] renders that were thrown away; each of those
    ran the [useMemo] factory. *)
Definition mountMaterial (pictureTexture : Ref) (discardedBefore : nat)
  : MaterialHooks :=
  let '(material, n) :=
    useMemo None (createPictureMaterial pictureTexture)
      [DepRef pictureTexture] discardedBefore in
  mkMaterialHooks material [DepRef (ident (memoValue material))]
    (ident (memoValue material)) [] (seq 0 discardedBefore) n.

(** A committed render: when the effect's dependency changed, the cleanup
    of its previous run is called before the effect runs again. *)
Definition rerenderMaterial (h : MaterialHooks) (pictureTexture : Ref)
  : MaterialHooks :=
  let '(material, n) :=
    useMemo (Some (pictureMaterial h)) (createPictureMaterial pictureTexture)
      [DepRef pictureTexture] (materialNext h) in
  let deps := [DepRef (ident (memoValue material))] in
  if effectFires (Some (disposeEffectDeps h)) deps
  then mkMaterialHooks material deps (ident (memoValue material))
         (pendingDispose h :: disposed h) (dropped h) n
  else mkMaterialHooks material deps (pendingDispose h) (disposed h)
         (dropped h) n.

(** A discarded render: [useMemo] runs against the committed cell, so the
    factory makes a material when the texture differs from the committed
    one; nothing is committed and no effect or cleanup runs. *)
Definition discardedRenderMaterial (h : MaterialHooks) (pictureTexture : Ref)
  : MaterialHooks :=
  let '(material, n) :=
    useMemo (Some (pictureMaterial h)) (createPictureMaterial pictureTexture)
      [DepRef pictureTexture] (materialNext h) in
  mkMaterialHooks (pictureMaterial h) (disposeEffectDeps h) (pendingDispose h)
    (disposed h)
    (if Nat.eqb n (materialNext h) then dropped h
     else ident (memoValue material) :: dropped h)
    n.

Definition renderMaterial (h : MaterialHooks) (r : MaterialRender)
  : MaterialHooks :=
  match r with
  | Committed pictureTexture => rerenderMaterial h pictureTexture
  | Discarded pictureTexture => discardedRenderMaterial h pictureTexture
  end.

(** Unmount calls the pending cleanup; the result is every material
    disposed over the component's life. *)
Definition unmountMaterial (h : MaterialHooks) : list Ref :=
  pendingDispose h :: disposed h.

(** The hooks after a mount and the renders of [renders]. *)
Definition runMaterial (pictureTexture : Ref) (discardedBefore : nat)
    (renders : list MaterialRender) : MaterialHooks :=
  fold_left renderMaterial renders
    (mountMaterial pictureTexture discardedBefore).



(** ** Runs of frame ticks *)

(** The position target a tick computes in state [s]. *)
Definition positionTargetOf (camera : Camera) (s : Instance) : Vector3.t :=
  tmpPosition (if isActive (props s) then activeTarget camera s
               else tableTarget s).

(** Consecutive ticks, one per elapsed time of [deltas], under one camera. *)
Definition ticks (camera : Camera) (deltas : list R) : list Step :=
  List.map (Frame camera) deltas.

Definition elapsed (deltas : list R) : R := fold_right Rplus 0 deltas.

(** The resting position target the props and the hover flag describe. *)
Definition restingTarget (p : Props) (hovered : bool) : Vector3.t :=
  let table := Vector3.fromArray (val (tablePosition p)) in
  if hovered then Vector3.add table (Vector3.new 0 HOVER_LIFT 0) else table.

(** ** Sample inputs *)

Definition sampleProps : Props :=
  mkProps "love" "/photo.jpg" None None None
    (mkObj 10%nat (1, 0, 2)) (mkObj 11%nat (0, 0, 0)) false.

Definition with_isActive (v : bool) (p : Props) : Props :=
  mkProps (id p) (image p) (imageScale p) (imageOffset p) (imageInset p)
          (tablePosition p) (tableRotation p) v.

(** A table slot at (3, 0, 1), turned half a turn about the x axis. *)
Definition turnedProps : Props :=
  mkProps "love" "/photo.jpg" None None None
    (mkObj 12%nat (3, 0, 1)) (mkObj 13%nat (PI, 0, 0)) false.

Definition sampleNode : Group :=
  mkGroup (Vector3.new 0 0 0) Quaternion.identity.

(** A camera at (0, 1, 0) looking down the negative z axis. *)
Definition sampleCamera : Camera :=
  mkCamera (Vector3.new 0 1 0) (Vector3.new 0 0 (-1)).

(** The same camera tilted upward: forward direction (0, 0.6, -0.8). *)
Definition tiltedCamera : Camera :=
  mkCamera (Vector3.new 0 1 0) (Vector3.new 0 0.6 (-0.8)).

Definition sampleBox : FrameBox :=
  mkFrameBox (Vector3.new 2 3 0.5) (Vector3.new 0 1.5 0).

Section Component.

(** [new Quaternion().setFromEuler(euler)]. *)
Variable setFromEuler : Euler.t -> Quaternion.t.

(** [this.slerp(qb, t)]: the contents of [this] afterwards. *)
Variable slerp : Quaternion.t -> Quaternion.t -> R -> Quaternion.t.

Definition createDefaultPosition (p : Props) (_ : unit) : Vector3.t :=
  Vector3.fromArray (val (tablePosition p)).

Definition createDefaultQuaternion (p : Props) (_ : unit) : Quaternion.t :=
  let euler := Euler.fromArray (val (tableRotation p)) in
  setFromEuler euler.

(** First render and commit: every hook initialises, [groupRef.current]
    becomes [current], then every effect runs.  [current] is the scene
    node, or [None] when the pass-through props carry a [ref] of the
    caller's: spread after [ref={groupRef}], it takes the node and
    [groupRef.current] stays null. *)
Definition mountWith (p : Props) (current : option Group) : Instance :=
  let isHovered0 := false in
  let '(defPos, n1) :=
    useMemo None (createDefaultPosition p)
      [DepRef (ident (tablePosition p))] 0%nat in
  let '(defQuat, n2) :=
    useMemo None (createDefaultQuaternion p)
      [DepRef (ident (tableRotation p))] n1 in
  mkInstance p
    (hoverEffect (isActive p) isHovered0)
    (poseEffect (val (memoValue defPos)) (val (memoValue defQuat)) current)
    defPos defQuat
    [DepRef (ident (memoValue defPos)); DepRef (ident (memoValue defQuat))]
    [DepBool (isActive p)]
    (Vector3.new 0 0 0) Quaternion.identity (Vector3.new 0 0 0)
    n2.

(** The mount of a component whose caller passes no [ref]: the scene node
    [node] is attached to [groupRef]. *)
Definition mount (p : Props) (node : Group) : Instance :=
  mountWith p (Some node).

(** A later render with props [p], and its commit: the memo cells are
    refreshed, then the effects whose dependencies changed run. *)
Definition rerender (p : Props) (s : Instance) : Instance :=
  let '(defPos, n1) :=
    useMemo (Some (defaultPosition s)) (createDefaultPosition p)
      [DepRef (ident (tablePosition p))] (heapNext s) in
  let '(defQuat, n2) :=
    useMemo (Some (defaultQuaternion s)) (createDefaultQuaternion p)
      [DepRef (ident (tableRotation p))] n1 in
  let poseDeps :=
    [DepRef (ident (memoValue defPos)); DepRef (ident (memoValue defQuat))] in
  let hoverDeps := [DepBool (isActive p)] in
  mkInstance p
    (if effectFires (Some (hoverEffectDeps s)) hoverDeps
     then hoverEffect (isActive p) (isHovered s)
     else isHovered s)
    (if effectFires (Some (poseEffectDeps s)) poseDeps
     then poseEffect (val (memoValue defPos)) (val (memoValue defQuat)) (groupRef s)
     else groupRef s)
    defPos defQuat poseDeps hoverDeps
    (tmpPosition s) (tmpQuaternion s) (tmpDirection s)
    n2.

(** The callback given to [useFrame]. *)
Definition frameCallback (camera : Camera) (delta : R) (s : Instance) : Instance :=
  match groupRef s with
  | None => s
  | Some group =>
      let s := if isActive (props s) then activeTarget camera s
               else tableTarget s in
      let positionTarget := tmpPosition s in
      let rotationTarget := tmpQuaternion s in
      set_groupRef
        (Some (mkGroup
                 (Vector3.lerp (position group) positionTarget (lerpAlpha delta))
                 (slerp (quaternion group) rotationTarget (slerpAlpha delta))))
        s
  end.

(** A state setter re-renders the component with the props it has. *)
Definition applyAction (s : Instance) (a : Action) : Instance :=
  match a with
  | SetIsHovered v => rerender (props s) (set_isHovered v s)
  | StopPropagation => s
  | OnToggle _ => s
  end.

(** The handler the last render attached for an event. *)
Definition handlerOf (s : Instance) (e : Event) : list Action :=
  match e with
  | PointerOver => handlePointerOver (isActive (props s))
  | PointerOut => handlePointerOut
  | PointerDown => handlePointerDown
  | Click => handleClick (id (props s))
  end.

(** One step of the component and the actions it performed. *)
Definition step (s : Instance) (st : Step) : Instance * list Action :=
  match st with
  | Render p => (rerender p s, [])
  | Pointer e =>
      let actions := handlerOf s e in
      (fold_left applyAction actions s, actions)
  | Frame camera delta => (frameCallback camera delta s, [])
  end.

Definition run (s : Instance) (l : list Step) : Instance :=
  fold_left (fun s st => fst (step s st)) l s.

(** Props are immutable values: an array that is the same object as in
    the previous render has the same elements. *)
Definition sameObject {A : Type} (old new : Obj A) : Prop :=
  ident new = ident old -> val new = val old.

Definition admissible (s : Instance) (st : Step) : Prop :=
  match st with
  | Render p =>
      sameObject (tablePosition (props s)) (tablePosition p) /\
      sameObject (tableRotation (props s)) (tableRotation p)
  | _ => True
  end.

(** The states of a component whose own ref holds the scene node. *)
Inductive reachable : Instance -> Prop :=
| reachable_mount (p : Props) (node : Group) : reachable (mount p node)
| reachable_step (s : Instance) (st : Step) :
    reachable s -> admissible s st -> reachable (fst (step s st)).

(** What holds of every state a mounted component can be in: the memo
    cells agree with the props of the last render, the stored effect
    dependencies are the ones of that render, and the scene node is
    attached. *)
Record consistent (s : Instance) : Prop := mkConsistent {
  memo_position_deps :
    memoDeps (defaultPosition s) = [DepRef (ident (tablePosition (props s)))];
  memo_position_val :
    val (memoValue (defaultPosition s))
    = Vector3.fromArray (val (tablePosition (props s)));
  memo_quaternion_deps :
    memoDeps (defaultQuaternion s) = [DepRef (ident (tableRotation (props s)))];
  memo_quaternion_val :
    val (memoValue (defaultQuaternion s))
    = setFromEuler (Euler.fromArray (val (tableRotation (props s))));
  pose_effect_deps :
    poseEffectDeps s
    = [DepRef (ident (memoValue (defaultPosition s)));
       DepRef (ident (memoValue (defaultQuaternion s)))];
  hover_effect_deps :
    hoverEffectDeps s = [DepBool (isActive (props s))];
  memo_position_allocated :
    (ident (memoValue (defaultPosition s)) < heapNext s)%nat;
  memo_quaternion_allocated :
    (ident (memoValue (defaultQuaternion s)) < heapNext s)%nat;
  group_attached : groupRef s <> None
}.

(** The table pose the props describe. *)
Definition tablePose (p : Props) : Group :=
  mkGroup (Vector3.fromArray (val (tablePosition p)))
          (setFromEuler (Euler.fromArray (val (tableRotation p)))).


Definition eraseInset (s : Instance) : Instance :=
  set_props (with_imageInset None (props s)) s.

Definition eraseStep (st : Step) : Step :=
  match st with
  | Render p => Render (with_imageInset None p)
  | _ => st
  end.

(** Props, and steps, that differ at most in [imageInset]. *)
Definition insetEquiv (p1 p2 : Props) : Prop :=
  with_imageInset None p1 = with_imageInset None p2.

Definition stepEquiv (a b : Step) : Prop := eraseStep a = eraseStep b.

(** The actions performed along a run, step by step. *)
Fixpoint outputs (s : Instance) (l : list Step) : list (list Action) :=
  match l with
  | [] => []
  | st :: l' => snd (step s st) :: outputs (fst (step s st)) l'
  end.

(** What the component shows: the rendered tree with the cursor flag, the
    transform of the scene node, and the pose targets. *)
Definition observe (b : FrameBox) (s : Instance)
  : Rendered * option Group * Vector3.t * Quaternion.t :=
  (BirthdayLove b (props s) (isHovered s), groupRef s, tmpPosition s,
   tmpQuaternion s).

(** ** Basic facts *)

Lemma Vector3_copy_eq (this v : Vector3.t) : Vector3.copy this v = v.
Proof. destruct v; reflexivity. Qed.

Lemma Quaternion_copy_eq (this q : Quaternion.t) : Quaternion.copy this q = q.
Proof. destruct q; reflexivity. Qed.

Lemma depIs_refl (a : Dep) : depIs a a = true.
Proof.
  destruct a as [r | b]; simpl.
  - apply Nat.eqb_refl.
  - destruct b; reflexivity.
Qed.

Lemma depsEqual_refl (l : list Dep) : depsEqual l l = true.
Proof.
  induction l as [| a l IH]; simpl; [reflexivity |].
  rewrite depIs_refl, IH; reflexivity.
Qed.

Lemma depsEqual_ref1 (a b : Ref) :
  depsEqual [DepRef a] [DepRef b] = Nat.eqb a b.
Proof. simpl. apply andb_true_r. Qed.

Lemma poseEffect_attached (v : Vector3.t) (q : Quaternion.t) (g : option Group) :
  g <> None -> poseEffect v q g = Some (mkGroup v q).
Proof.
  destruct g as [g |]; [intros _ | congruence].
  unfold poseEffect. now rewrite Vector3_copy_eq, Quaternion_copy_eq.
Qed.

Lemma poseEffect_keeps_attached (v : Vector3.t) (q : Quaternion.t) (g : option Group) :
  g <> None -> poseEffect v q g <> None.
Proof. intros H. rewrite poseEffect_attached by exact H. discriminate. Qed.

Lemma consistent_mount (p : Props) (node : Group) : consistent (mount p node).
Proof.
  unfold mount, mountWith; simpl.
  constructor; simpl; try reflexivity; try lia; discriminate.
Qed.

Lemma consistent_rerender (s : Instance) (p : Props) :
  consistent s -> admissible s (Render p) -> consistent (rerender p s).
Proof.
  intros C [Hpos Hrot].
  unfold sameObject in Hpos, Hrot.
  destruct C as [Dp Vp Dq Vq De Dh Ap Aq G].
  unfold rerender, useMemo.
  rewrite Dp, Dq, !depsEqual_ref1.
  destruct (Nat.eqb_spec (ident (tablePosition (props s))) (ident (tablePosition p)))
    as [Ep | Np];
  destruct (Nat.eqb_spec (ident (tableRotation (props s))) (ident (tableRotation p)))
    as [Eq | Nq];
  cbv zeta; cbn [fst snd];
  (constructor; cbn [props defaultPosition defaultQuaternion poseEffectDeps
                     hoverEffectDeps heapNext groupRef memoDeps memoValue
                     ident val];
   [ try reflexivity; try congruence
   | try reflexivity; try (rewrite Vp, Hpos by congruence; reflexivity)
   | try reflexivity; try congruence
   | try reflexivity; try (rewrite Vq, Hrot by congruence; reflexivity)
   | reflexivity | reflexivity | lia | lia
   | destruct (effectFires _ _);
     [apply poseEffect_keeps_attached; exact G | exact G] ]).
Qed.

(** A render with the props and state of the last one changes nothing. *)
Lemma rerender_same (s : Instance) : consistent s -> rerender (props s) s = s.
Proof.
  intros [Dp Vp Dq Vq De Dh Ap Aq G].
  destruct s as [p h g dp dq ed hd tp tq td n].
  cbn [props defaultPosition defaultQuaternion poseEffectDeps hoverEffectDeps
       heapNext groupRef isHovered tmpPosition tmpQuaternion tmpDirection] in *.
  unfold rerender, useMemo.
  cbn [props defaultPosition defaultQuaternion poseEffectDeps hoverEffectDeps
       heapNext groupRef isHovered tmpPosition tmpQuaternion tmpDirection].
  rewrite Dp, Dq, !depsEqual_refl. cbv zeta.
  unfold effectFires. rewrite De, Dh, !depsEqual_refl.
  reflexivity.
Qed.

Lemma consistent_set_isHovered (v : bool) (s : Instance) :
  consistent s -> consistent (set_isHovered v s).
Proof. intros [Dp Vp Dq Vq De Dh Ap Aq G]. constructor; assumption. Qed.

Lemma applyAction_SetIsHovered (v : bool) (s : Instance) :
  consistent s -> applyAction s (SetIsHovered v) = set_isHovered v s.
Proof.
  intros C. unfold applyAction.
  apply (rerender_same (set_isHovered v s)).
  apply consistent_set_isHovered; exact C.
Qed.

Lemma consistent_applyAction (s : Instance) (a : Action) :
  consistent s -> consistent (applyAction s a).
Proof.
  intros C. destruct a as [| v | i]; try exact C.
  rewrite applyAction_SetIsHovered by exact C.
  apply consistent_set_isHovered; exact C.
Qed.

Lemma consistent_fold_applyAction (l : list Action) (s : Instance) :
  consistent s -> consistent (fold_left applyAction l s).
Proof.
  revert s. induction l as [| a l IH]; intros s C; simpl; [exact C |].
  apply IH, consistent_applyAction, C.
Qed.

(** Either branch of the frame callback writes the scratch objects only. *)
Lemma target_frame (camera : Camera) (s : Instance) :
  let s' := if isActive (props s) then activeTarget camera s else tableTarget s in
  s' = set_tmpQuaternion (tmpQuaternion s')
         (set_tmpDirection (tmpDirection s')
            (set_tmpPosition (tmpPosition s') s)).
Proof.
  destruct s as [p h g dp dq ed hd tp tq td n].
  cbn [props]. destruct (isActive p).
  - unfold activeTarget. cbv zeta. destruct (Rlt_dec _ _); reflexivity.
  - unfold tableTarget. cbv zeta. destruct h; reflexivity.
Qed.

Lemma consistent_frameCallback (camera : Camera) (delta : R) (s : Instance) :
  consistent s -> consistent (frameCallback camera delta s).
Proof.
  intros C. unfold frameCallback.
  destruct (groupRef s) as [g |] eqn:Eg; [| exact C].
  destruct C as [Dp Vp Dq Vq De Dh Ap Aq G].
  rewrite (target_frame camera s).
  constructor; try assumption. discriminate.
Qed.

Lemma consistent_step (s : Instance) (st : Step) :
  consistent s -> admissible s st -> consistent (fst (step s st)).
Proof.
  intros C A. destruct st as [p | e | camera delta]; simpl.
  - apply consistent_rerender; assumption.
  - apply consistent_fold_applyAction, C.
  - apply consistent_frameCallback, C.
Qed.

Lemma reachable_consistent (s : Instance) : reachable s -> consistent s.
Proof.
  induction 1 as [p node | s st _ IH A].
  - apply consistent_mount.
  - apply consistent_step; assumption.
Qed.

(** ** Layout *)

(** C5: the image plane is as wide as the bounding-box size x times the
    x scale and as high as the size y times the y scale, a scalar
    [imageScale] serving both axes and an absent one meaning
    (0.82, 0.82); it sits at the bounding-box centre plus the offset, an
    absent offset meaning (0, 0.05, -0.27); these are the values the
    rendered mesh and its plane geometry receive. *)
Theorem image_plane_layout (b : FrameBox) (p : Props) (hovered : bool) :
  let size := frameSize b in
  let center := frameCenter b in
  (forall k, imageScale p = Some (Scalar k) ->
     imageWidth b p = Vector3.x size * k /\ imageHeight b p = Vector3.y size * k) /\
  (forall kx ky, imageScale p = Some (Pair kx ky) ->
     imageWidth b p = Vector3.x size * kx /\ imageHeight b p = Vector3.y size * ky) /\
  (imageScale p = None ->
     imageWidth b p = Vector3.x size * 0.82 /\
     imageHeight b p = Vector3.y size * 0.82) /\
  (forall ox oy oz, imageOffset p = Some (ox, oy, oz) ->
     imagePosition b p
     = (Vector3.x center + ox, Vector3.y center + oy, Vector3.z center + oz)) /\
  (imageOffset p = None ->
     imagePosition b p
     = (Vector3.x center + 0, Vector3.y center + 0.05, Vector3.z center + -0.27)) /\
  (exists rotation handlers,
     tree (BirthdayLove b p hovered)
     = GroupEl None
         [GroupEl rotation
            [PrimitiveEl b;
             MeshEl (imagePosition b p) (0.435, PI, 0) (image p) handlers
               [PlaneGeometryEl (imageWidth b p, imageHeight b p)];
             ChildrenEl]]).
Proof.
  cbv zeta.
  unfold imageWidth, imageHeight, imagePosition, imageScaleX, imageScaleY,
    scaledImage, imageScaleArg, imageOffsetArg, DEFAULT_IMAGE_SCALE.
  split; [| split; [| split; [| split; [| split]]]].
  - intros k E; rewrite E; split; reflexivity.
  - intros kx ky E; rewrite E; split; reflexivity.
  - intros E; rewrite E; split; reflexivity.
  - intros ox oy oz E; rewrite E; reflexivity.
  - intros E; rewrite E; reflexivity.
  - eexists; eexists; reflexivity.
Qed.

(** ** Pose targets *)

(** C1: on a frame tick with the active flag set, the position target is
    the camera position plus 1.5 times the camera's forward direction
    plus (0, -0.05, 0), except that a y component of that sum below 0.8
    is replaced by exactly 0.8; the target's y is never below 0.8. *)
Theorem active_target_position (camera : Camera) (delta : R) (s : Instance) :
  groupRef s <> None ->
  isActive (props s) = true ->
  let sum :=
    Vector3.add
      (Vector3.add (cameraPosition camera)
         (Vector3.multiplyScalar (worldDirection camera) 1.5))
      (Vector3.new 0 (-0.05) 0) in
  let target := tmpPosition (frameCallback camera delta s) in
  Vector3.x target = Vector3.x sum /\
  Vector3.z target = Vector3.z sum /\
  (Vector3.y sum < 0.8 -> Vector3.y target = 0.8) /\
  (~ Vector3.y sum < 0.8 -> Vector3.y target = Vector3.y sum) /\
  0.8 <= Vector3.y target.
Proof.
  intros G A. cbv zeta. unfold frameCallback.
  destruct (groupRef s) as [g |]; [clear G | congruence].
  rewrite A.
  destruct s as [p h gr dp dq ed hd tp tq td n].
  unfold activeTarget, getWorldDirection, CAMERA_DISTANCE, CAMERA_Y_FLOOR,
    cameraOffset.
  cbn -[Rlt_dec].
  destruct (Rlt_dec _ 0.8) as [L | L]; cbn; repeat split; intros; try lra.
Qed.

(** C2: on a frame tick with the active flag clear, the position target
    is the table position (px, py, pz) the props give, raised by 0.05
    along y when hovered, and the orientation target is the quaternion
    setFromEuler makes of the Euler angles (rx, ry, rz) the props give as
    tableRotation. *)
Theorem table_target_pose (camera : Camera) (delta : R) (s : Instance)
    (px py pz rx ry rz : R) :
  reachable s ->
  isActive (props s) = false ->
  val (tablePosition (props s)) = (px, py, pz) ->
  val (tableRotation (props s)) = (rx, ry, rz) ->
  let s' := frameCallback camera delta s in
  (isHovered s = true -> tmpPosition s' = Vector3.new px (py + 0.05) pz) /\
  (isHovered s = false -> tmpPosition s' = Vector3.new px py pz) /\
  tmpQuaternion s' = setFromEuler (Euler.new rx ry rz).
Proof.
  intros Rs A Hp Hr. cbv zeta.
  destruct (reachable_consistent s Rs) as [Dp Vp Dq Vq De Dh Ap Aq G].
  rewrite Hp in Vp. rewrite Hr in Vq.
  cbn [Vector3.fromArray Euler.fromArray] in Vp, Vq.
  unfold frameCallback.
  destruct (groupRef s) as [g |]; [clear G | congruence].
  rewrite A.
  destruct s as [p h gr dp dq ed hd tp tq td n].
  unfold tableTarget, HOVER_LIFT.
  cbn [props isHovered defaultPosition defaultQuaternion tmpPosition
       tmpQuaternion set_tmpPosition set_tmpQuaternion set_groupRef] in *.
  rewrite Vector3_copy_eq, Vp.
  repeat split.
  - intros ->. reflexivity.
  - intros ->. reflexivity.
  - destruct h; cbn [tmpQuaternion set_tmpPosition];
      rewrite Quaternion_copy_eq; exact Vq.
Qed.

(** ** Smoothing *)

Lemma exp_decay_range (k delta : R) :
  0 <= k -> 0 <= delta -> 0 < exp (- delta * k) <= 1.
Proof.
  intros Hk Hd. split; [apply exp_pos |].
  assert (Hx : - delta * k <= 0) by nra.
  destruct Hx as [Hlt | Heq].
  - left. rewrite <- exp_0. apply exp_increasing, Hlt.
  - right. rewrite Heq. apply exp_0.
Qed.

Lemma exp_decay_small (k eps delta : R) :
  1 <= k -> 0 < eps -> / eps <= delta -> exp (- delta * k) < eps.
Proof.
  intros Hk He Hd.
  assert (Hi : 0 < / eps) by (apply Rinv_0_lt_compat, He).
  replace (- delta * k) with (- (delta * k)) by ring.
  rewrite exp_Ropp.
  assert (Hg : / eps < exp (delta * k)).
  { pose proof (exp_ineq1_le (delta * k)). nra. }
  rewrite <- (Rinv_inv eps).
  apply Rinv_lt_contravar; [| exact Hg].
  apply Rmult_lt_0_compat; [exact Hi | lra].
Qed.

Lemma Vector3_lerp_0 (this v : Vector3.t) : Vector3.lerp this v 0 = this.
Proof. destruct this as [a b c]. unfold Vector3.lerp; cbn. f_equal; lra. Qed.


(** ** Binary64 rounding *)


















(** ** Renders and effects *)

Lemma depsEqual_bool1 (a b : bool) :
  depsEqual [DepBool a] [DepBool b] = Bool.eqb a b.
Proof. simpl. apply andb_true_r. Qed.

Lemma rerender_isHovered (p : Props) (s : Instance) :
  consistent s ->
  isHovered (rerender p s)
  = if Bool.eqb (isActive (props s)) (isActive p) then isHovered s
    else hoverEffect (isActive p) (isHovered s).
Proof.
  intros C. unfold rerender.
  destruct (useMemo (Some (defaultPosition s)) _ _ _) as [defPos n1].
  destruct (useMemo (Some (defaultQuaternion s)) _ _ _) as [defQuat n2].
  cbn [isHovered]. unfold effectFires.
  rewrite (hover_effect_deps s C), depsEqual_bool1.
  destruct (Bool.eqb _ _); reflexivity.
Qed.

Lemma rerender_props (p : Props) (s : Instance) : props (rerender p s) = p.
Proof.
  unfold rerender.
  destruct (useMemo (Some (defaultPosition s)) _ _ _) as [defPos n1].
  destruct (useMemo (Some (defaultQuaternion s)) _ _ _) as [defQuat n2].
  reflexivity.
Qed.

Lemma rerender_tmpQuaternion (p : Props) (s : Instance) :
  tmpQuaternion (rerender p s) = tmpQuaternion s.
Proof.
  unfold rerender.
  destruct (useMemo (Some (defaultPosition s)) _ _ _) as [defPos n1].
  destruct (useMemo (Some (defaultQuaternion s)) _ _ _) as [defQuat n2].
  reflexivity.
Qed.

Lemma applyAction_props (s : Instance) (a : Action) :
  props (applyAction s a) = props s.
Proof.
  destruct a; unfold applyAction; try reflexivity.
  now rewrite rerender_props.
Qed.


Lemma fold_applyAction_props (l : list Action) (s : Instance) :
  props (fold_left applyAction l s) = props s.
Proof.
  revert s. induction l as [| a l IH]; intros s; simpl; [reflexivity |].
  rewrite IH. apply applyAction_props.
Qed.


Lemma frameCallback_props (camera : Camera) (delta : R) (s : Instance) :
  props (frameCallback camera delta s) = props s.
Proof.
  unfold frameCallback. destruct (groupRef s); [| reflexivity].
  rewrite (target_frame camera s). reflexivity.
Qed.

Lemma frameCallback_isHovered (camera : Camera) (delta : R) (s : Instance) :
  isHovered (frameCallback camera delta s) = isHovered s.
Proof.
  unfold frameCallback. destruct (groupRef s); [| reflexivity].
  rewrite (target_frame camera s). reflexivity.
Qed.





(** ** Hover and activation *)

Lemma pointer_isHovered (s : Instance) (e : Event) :
  consistent s ->
  isHovered (fst (step s (Pointer e)))
  = match e with
    | PointerOver => if isActive (props s) then isHovered s else true
    | PointerOut => false
    | PointerDown | Click => isHovered s
    end.
Proof.
  intros C. destruct e; cbn [step fst handlerOf].
  - unfold handlePointerOver. destruct (isActive (props s)); cbn [negb fold_left].
    + reflexivity.
    + cbn [applyAction]. change (rerender (props s) (set_isHovered true s))
        with (applyAction s (SetIsHovered true)).
      rewrite applyAction_SetIsHovered by exact C. reflexivity.
  - unfold handlePointerOut. cbn [fold_left]. cbn [applyAction].
    change (rerender (props s) (set_isHovered false s))
      with (applyAction s (SetIsHovered false)).
    rewrite applyAction_SetIsHovered by exact C. reflexivity.
  - reflexivity.
  - reflexivity.
Qed.

(** C6: when the active flag goes from true to false while hovered is
    true, hovered is false after that render. *)
Theorem deactivation_clears_hover (s : Instance) (p : Props) :
  reachable s ->
  isHovered s = true ->
  isActive (props s) = true ->
  isActive p = false ->
  isHovered (fst (step s (Render p))) = false.
Proof.
  intros Rs _ A A'. cbn [step fst].
  rewrite rerender_isHovered by (apply reachable_consistent, Rs).
  rewrite A, A'. reflexivity.
Qed.

(** C7, as the code has it: hovered is false after mount and after every
    render in which the active flag goes from true to false; it turns
    from false to true only on a pointer-over event received while the
    active flag is false, and every such event does set it. *)
Theorem hover_set_only_by_pointer_over :
  (forall p node, isHovered (mount p node) = false) /\
  (forall s p,
     reachable s -> isActive (props s) = true -> isActive p = false ->
     isHovered (fst (step s (Render p))) = false) /\
  (forall s st,
     reachable s -> isHovered s = false ->
     isHovered (fst (step s st)) = true ->
     st = Pointer PointerOver /\ isActive (props s) = false) /\
  (forall s,
     reachable s -> isActive (props s) = false ->
     isHovered (fst (step s (Pointer PointerOver))) = true /\
     isActive (props (fst (step s (Pointer PointerOver)))) = false).
Proof.
  split; [| split; [| split]].
  - intros p node. unfold mount, mountWith, useMemo, hoverEffect. cbn.
    destruct (isActive p); reflexivity.
  - intros s p Rs A A'. cbn [step fst].
    rewrite rerender_isHovered by (apply reachable_consistent, Rs).
    rewrite A, A'. reflexivity.
  - intros s st Rs H H'.
    pose proof (reachable_consistent s Rs) as C.
    destruct st as [p | e | camera delta].
    + cbn [step fst] in H'. rewrite rerender_isHovered in H' by exact C.
      unfold hoverEffect in H'. rewrite H in H'.
      destruct (Bool.eqb _ _), (isActive p); discriminate.
    + rewrite pointer_isHovered in H' by exact C.
      destruct e; try congruence.
      destruct (isActive (props s)); [congruence | split; reflexivity].
    + cbn [step fst] in H'. rewrite frameCallback_isHovered in H'. congruence.
  - intros s Rs A.
    pose proof (reachable_consistent s Rs) as C.
    rewrite pointer_isHovered by exact C. rewrite A. split; [reflexivity |].
    cbn [step fst]. rewrite fold_applyAction_props. exact A.
Qed.

(** C8: a click stops propagation and calls the owner's toggle callback
    with the component's id, a pointer press stops propagation, and
    neither changes the component; after a pointer event or a frame tick
    the active flag is the one of the last render, which is always the
    one the owner passed in. *)
Theorem click_and_press (s : Instance) :
  step s (Pointer Click) = (s, [StopPropagation; OnToggle (id (props s))]) /\
  step s (Pointer PointerDown) = (s, [StopPropagation]) /\
  (forall e, isActive (props (fst (step s (Pointer e)))) = isActive (props s)) /\
  (forall camera delta,
     isActive (props (fst (step s (Frame camera delta)))) = isActive (props s)) /\
  (forall p, isActive (props (fst (step s (Render p)))) = isActive p) /\
  (forall p node, isActive (props (mount p node)) = isActive p).
Proof.
  repeat split.
  - intros e. cbn [step fst]. now rewrite fold_applyAction_props.
  - intros camera delta. cbn [step fst]. now rewrite frameCallback_props.
  - intros p. cbn [step fst]. now rewrite rerender_props.
Qed.

(** ** Snapping to the table pose *)

Lemma rerender_groupRef_changed (s : Instance) (p : Props) :
  consistent s ->
  admissible s (Render p) ->
  ident (tablePosition p) <> ident (tablePosition (props s)) \/
  ident (tableRotation p) <> ident (tableRotation (props s)) ->
  groupRef (rerender p s) = Some (tablePose p).
Proof.
  intros C [Hpos Hrot] Hchg.
  unfold sameObject in Hpos, Hrot.
  destruct C as [Dp Vp Dq Vq De Dh Ap Aq G].
  unfold rerender, useMemo, tablePose.
  rewrite Dp, Dq, !depsEqual_ref1.
  destruct (Nat.eqb_spec (ident (tablePosition (props s))) (ident (tablePosition p)))
    as [Ep | Np];
  destruct (Nat.eqb_spec (ident (tableRotation (props s))) (ident (tableRotation p)))
    as [Eq | Nq];
  cbv zeta; cbn [fst snd groupRef memoValue ident val];
  unfold effectFires; rewrite De; cbn [depsEqual depIs].
  - exfalso. destruct Hchg; congruence.
  - rewrite Nat.eqb_refl.
    rewrite (proj2 (Nat.eqb_neq _ _)) by lia. cbn [andb negb].
    rewrite poseEffect_attached by exact G.
    rewrite Vp, Hpos by congruence. reflexivity.
  - rewrite (proj2 (Nat.eqb_neq _ (heapNext s))) by lia. cbn [andb negb].
    rewrite poseEffect_attached by exact G.
    rewrite Vq, Hrot by congruence. reflexivity.
  - rewrite (proj2 (Nat.eqb_neq _ (heapNext s))) by lia. cbn [andb negb].
    rewrite poseEffect_attached by exact G. reflexivity.
Qed.

Lemma tablePose_components (p : Props) (px py pz rx ry rz : R) :
  val (tablePosition p) = (px, py, pz) ->
  val (tableRotation p) = (rx, ry, rz) ->
  tablePose p
  = mkGroup (Vector3.new px py pz) (setFromEuler (Euler.new rx ry rz)).
Proof. intros Hp Hr. unfold tablePose. rewrite Hp, Hr. reflexivity. Qed.

Lemma mountWith_groupRef (p : Props) (current : option Group) :
  groupRef (mountWith p current)
  = match current with Some _ => Some (tablePose p) | None => None end.
Proof.
  unfold mountWith, useMemo, tablePose. cbn.
  destruct current as [g |]; [| reflexivity].
  cbn. now rewrite Vector3_copy_eq, Quaternion_copy_eq.
Qed.

Lemma rerender_detached (p : Props) (s : Instance) :
  groupRef s = None -> groupRef (rerender p s) = None.
Proof.
  intros G. unfold rerender.
  destruct (useMemo (Some (defaultPosition s)) _ _ _) as [defPos n1].
  destruct (useMemo (Some (defaultQuaternion s)) _ _ _) as [defQuat n2].
  cbn [groupRef]. rewrite G. destruct (effectFires _ _); reflexivity.
Qed.

Lemma step_detached (s : Instance) (st : Step) :
  groupRef s = None -> groupRef (fst (step s st)) = None.
Proof.
  intros G. destruct st as [p | e | camera delta]; cbn [step fst].
  - apply rerender_detached, G.
  - generalize (handlerOf s e). intros l. revert s G.
    induction l as [| a l IH]; intros s G; [exact G |].
    cbn [fold_left]. apply IH.
    destruct a as [| v | i]; cbn [applyAction]; try exact G.
    apply rerender_detached. exact G.
  - unfold frameCallback. rewrite G. exact G.
Qed.

(** When a caller's ref has taken the node, the component never reaches
    it: [groupRef] stays empty through every run. *)
Lemma run_detached (l : list Step) (p : Props) :
  groupRef (run (mountWith p None) l) = None.
Proof.
  assert (H : forall s, groupRef s = None -> groupRef (run s l) = None).
  { induction l as [| st l IH]; intros s G; [exact G |].
    apply (IH (fst (step s st))), step_detached, G. }
  apply H. rewrite mountWith_groupRef. reflexivity.
Qed.

(** C10, for a component whose own ref holds the scene node (the caller
    passes no ref): when it mounts, and at every render whose tablePosition
    or tableRotation array is a different object from the previous
    render's (as it is whenever its elements differ), the node's position
    is set to the table position (px, py, pz) and its quaternion to
    setFromEuler of the Euler angles (rx, ry, rz), by copy, with no
    blend. *)
Theorem table_pose_applied_at_once (px py pz rx ry rz : R) :
  let placed :=
    Some (mkGroup (Vector3.new px py pz)
            (setFromEuler (Euler.new rx ry rz))) in
  (forall p node,
     val (tablePosition p) = (px, py, pz) ->
     val (tableRotation p) = (rx, ry, rz) ->
     groupRef (mount p node) = placed) /\
  (forall s p,
     reachable s ->
     admissible s (Render p) ->
     val (tablePosition p) = (px, py, pz) ->
     val (tableRotation p) = (rx, ry, rz) ->
     ident (tablePosition p) <> ident (tablePosition (props s)) \/
     ident (tableRotation p) <> ident (tableRotation (props s)) ->
     groupRef (fst (step s (Render p))) = placed) /\
  (forall s p,
     reachable s ->
     admissible s (Render p) ->
     val (tablePosition p) = (px, py, pz) ->
     val (tableRotation p) = (rx, ry, rz) ->
     val (tablePosition p) <> val (tablePosition (props s)) \/
     val (tableRotation p) <> val (tableRotation (props s)) ->
     groupRef (fst (step s (Render p))) = placed).
Proof.
  cbv zeta.
  assert (Changed : forall s p,
            reachable s ->
            admissible s (Render p) ->
            val (tablePosition p) = (px, py, pz) ->
            val (tableRotation p) = (rx, ry, rz) ->
            ident (tablePosition p) <> ident (tablePosition (props s)) \/
            ident (tableRotation p) <> ident (tableRotation (props s)) ->
            groupRef (fst (step s (Render p)))
            = Some (mkGroup (Vector3.new px py pz)
                      (setFromEuler (Euler.new rx ry rz)))).
  { intros s p Rs A Hp Hr Hchg. cbn [step fst].
    rewrite <- (tablePose_components p px py pz rx ry rz Hp Hr).
    apply rerender_groupRef_changed;
      [apply reachable_consistent, Rs | exact A | exact Hchg]. }
  split; [| split].
  - intros p node Hp Hr. unfold mount. rewrite mountWith_groupRef.
    now rewrite (tablePose_components p px py pz rx ry rz Hp Hr).
  - exact Changed.
  - intros s p Rs A Hp Hr Hval. apply Changed; try assumption.
    destruct A as [Hpos Hrot]. unfold sameObject in Hpos, Hrot.
    destruct Hval as [Hv | Hv]; [left | right]; intros E; apply Hv; auto.
Qed.

(** ** The image inset *)

Lemma eraseInset_rerender (p : Props) (s : Instance) :
  eraseInset (rerender p s) = rerender (with_imageInset None p) (eraseInset s).
Proof.
  unfold rerender, eraseInset.
  cbn [props set_props defaultPosition defaultQuaternion heapNext
       with_imageInset tablePosition tableRotation isActive].
  change (createDefaultPosition (with_imageInset None p))
    with (createDefaultPosition p).
  change (createDefaultQuaternion (with_imageInset None p))
    with (createDefaultQuaternion p).
  destruct (useMemo (Some (defaultPosition s)) _ _ _) as [defPos n1].
  destruct (useMemo (Some (defaultQuaternion s)) _ _ _) as [defQuat n2].
  reflexivity.
Qed.

Lemma eraseInset_applyAction (s : Instance) (a : Action) :
  eraseInset (applyAction s a) = applyAction (eraseInset s) a.
Proof.
  destruct a as [| v | i]; unfold applyAction; try reflexivity.
  rewrite eraseInset_rerender. reflexivity.
Qed.

Lemma eraseInset_fold_applyAction (l : list Action) (s : Instance) :
  eraseInset (fold_left applyAction l s)
  = fold_left applyAction l (eraseInset s).
Proof.
  revert s. induction l as [| a l IH]; intros s; simpl; [reflexivity |].
  rewrite IH, eraseInset_applyAction. reflexivity.
Qed.

Lemma eraseInset_frameCallback (camera : Camera) (delta : R) (s : Instance) :
  eraseInset (frameCallback camera delta s)
  = frameCallback camera delta (eraseInset s).
Proof.
  destruct s as [p h g dp dq ed hd tp tq td n].
  unfold frameCallback, eraseInset.
  cbn [groupRef props set_props with_imageInset isActive].
  destruct g as [g |]; [| reflexivity].
  destruct (isActive p).
  - unfold activeTarget. cbv zeta.
    cbn [tmpPosition tmpDirection set_tmpPosition set_tmpDirection].
    destruct (Rlt_dec _ _); reflexivity.
  - unfold tableTarget. cbv zeta. destruct h; reflexivity.
Qed.

Lemma eraseInset_step (s : Instance) (st : Step) :
  eraseInset (fst (step s st)) = fst (step (eraseInset s) (eraseStep st)) /\
  snd (step s st) = snd (step (eraseInset s) (eraseStep st)).
Proof.
  destruct st as [p | e | camera delta]; cbn [step eraseStep fst snd].
  - split; [apply eraseInset_rerender | reflexivity].
  - split; [| destruct e; reflexivity].
    rewrite eraseInset_fold_applyAction. destruct e; reflexivity.
  - split; [apply eraseInset_frameCallback | reflexivity].
Qed.

Lemma eraseInset_run (l1 l2 : list Step) :
  Forall2 stepEquiv l1 l2 ->
  forall s1 s2,
    eraseInset s1 = eraseInset s2 ->
    eraseInset (run s1 l1) = eraseInset (run s2 l2) /\
    outputs s1 l1 = outputs s2 l2.
Proof.
  induction 1 as [| a b l1 l2 Hab _ IH]; intros s1 s2 E.
  - split; [exact E | reflexivity].
  - unfold stepEquiv in Hab.
    destruct (eraseInset_step s1 a) as [Ea Oa].
    destruct (eraseInset_step s2 b) as [Eb Ob].
    assert (E' : eraseInset (fst (step s1 a)) = eraseInset (fst (step s2 b)))
      by (rewrite Ea, Eb, E, Hab; reflexivity).
    destruct (IH _ _ E') as [Er Eo].
    split; [exact Er |].
    cbn [outputs]. rewrite Eo, Oa, Ob, E, Hab. reflexivity.
Qed.

Lemma observe_eraseInset (b : FrameBox) (s : Instance) :
  observe b (eraseInset s) = observe b s.
Proof. reflexivity. Qed.

(** C9: the [imageInset] prop reaches no output.  Two props that differ
    only there give the same image plane size and position and the same
    rendered tree, and two runs of the component whose props differ only
    there show the same tree, node transform and pose targets and
    perform the same actions. *)
Theorem imageInset_unused :
  (forall b p v1 v2 hovered,
     imageWidth b (with_imageInset v1 p) = imageWidth b (with_imageInset v2 p) /\
     imageHeight b (with_imageInset v1 p) = imageHeight b (with_imageInset v2 p) /\
     imagePosition b (with_imageInset v1 p)
     = imagePosition b (with_imageInset v2 p) /\
     BirthdayLove b (with_imageInset v1 p) hovered
     = BirthdayLove b (with_imageInset v2 p) hovered) /\
  (forall b p1 p2 node l1 l2,
     insetEquiv p1 p2 ->
     Forall2 stepEquiv l1 l2 ->
     observe b (run (mount p1 node) l1) = observe b (run (mount p2 node) l2) /\
     outputs (mount p1 node) l1 = outputs (mount p2 node) l2).
Proof.
  split.
  - intros b p v1 v2 hovered. repeat split.
  - intros b p1 p2 node l1 l2 Hp Hl.
    assert (E : eraseInset (mount p1 node) = eraseInset (mount p2 node)).
    { unfold insetEquiv in Hp.
      change (eraseInset (mount p1 node))
        with (mount (with_imageInset None p1) node).
      rewrite Hp. reflexivity. }
    destruct (eraseInset_run l1 l2 Hl _ _ E) as [Er Eo].
    split; [| exact Eo].
    rewrite <- (observe_eraseInset b (run (mount p1 node) l1)), Er.
    apply observe_eraseInset.
Qed.

(** ** The picture material *)






(** ** Runs of frame ticks *)

Lemma lerpAlpha_plus (d1 d2 : R) :
  (1 - lerpAlpha d1) * (1 - lerpAlpha d2) = 1 - lerpAlpha (d1 + d2).
Proof.
  unfold lerpAlpha.
  replace (- (d1 + d2) * 12) with (- d1 * 12 + - d2 * 12) by ring.
  rewrite exp_plus. ring.
Qed.

Lemma Vector3_lerp_lerp (a t : Vector3.t) (a1 a2 : R) :
  Vector3.lerp (Vector3.lerp a t a1) t a2
  = Vector3.lerp a t (1 - (1 - a1) * (1 - a2)).
Proof. unfold Vector3.lerp; cbn. f_equal; ring. Qed.

Lemma positionTargetOf_ext (camera : Camera) (s1 s2 : Instance) :
  props s1 = props s2 ->
  isHovered s1 = isHovered s2 ->
  defaultPosition s1 = defaultPosition s2 ->
  positionTargetOf camera s1 = positionTargetOf camera s2.
Proof.
  destruct s1 as [p1 h1 g1 dp1 dq1 ed1 hd1 tp1 tq1 td1 n1].
  destruct s2 as [p2 h2 g2 dp2 dq2 ed2 hd2 tp2 tq2 td2 n2].
  cbn [props isHovered defaultPosition]. intros -> -> ->.
  unfold positionTargetOf. cbn [props]. destruct (isActive p2).
  - unfold activeTarget. cbv zeta.
    cbn [tmpPosition tmpDirection set_tmpPosition set_tmpDirection].
    destruct (Rlt_dec _ _); reflexivity.
  - unfold tableTarget. cbv zeta. destruct h2; reflexivity.
Qed.

Lemma frameCallback_defaultPosition (camera : Camera) (delta : R) (s : Instance) :
  defaultPosition (frameCallback camera delta s) = defaultPosition s.
Proof.
  unfold frameCallback. destruct (groupRef s); [| reflexivity].
  rewrite (target_frame camera s). reflexivity.
Qed.

Lemma positionTargetOf_frameCallback (camera camera' : Camera) (delta : R)
    (s : Instance) :
  positionTargetOf camera (frameCallback camera' delta s)
  = positionTargetOf camera s.
Proof.
  apply positionTargetOf_ext.
  - apply frameCallback_props.
  - apply frameCallback_isHovered.
  - apply frameCallback_defaultPosition.
Qed.

Lemma frameCallback_position (camera : Camera) (delta : R) (s : Instance)
    (g : Group) :
  groupRef s = Some g ->
  option_map position (groupRef (frameCallback camera delta s))
  = Some (Vector3.lerp (position g) (positionTargetOf camera s) (lerpAlpha delta)).
Proof.
  intros G. unfold frameCallback, positionTargetOf. rewrite G. reflexivity.
Qed.

Lemma run_ticks_position (camera : Camera) (deltas : list R) :
  forall (s : Instance) (g : Group),
    groupRef s = Some g ->
    option_map position (groupRef (run s (ticks camera deltas)))
    = Some (Vector3.lerp (position g) (positionTargetOf camera s)
              (lerpAlpha (elapsed deltas))).
Proof.
  induction deltas as [| d deltas IH]; intros s g G.
  - cbn [ticks List.map run fold_left elapsed fold_right]. rewrite G.
    replace (lerpAlpha 0) with 0
      by (unfold lerpAlpha; replace (- 0 * 12) with 0 by ring;
          rewrite exp_0; ring).
    cbn [option_map]. now rewrite Vector3_lerp_0.
  - cbn [ticks List.map elapsed fold_right].
    change (run s (Frame camera d :: List.map (Frame camera) deltas))
      with (run (frameCallback camera d s) (ticks camera deltas)).
    pose proof (frameCallback_position camera d s g G) as H1.
    destruct (groupRef (frameCallback camera d s)) as [g1 |] eqn:G1;
      [| discriminate H1].
    cbn [option_map] in H1. injection H1 as H1.
    rewrite (IH _ g1 G1), positionTargetOf_frameCallback, H1.
    rewrite Vector3_lerp_lerp, lerpAlpha_plus.
    f_equal. f_equal. fold (elapsed deltas). ring.
Qed.

(** X2: frame-rate independence of the position blend, in exact real
    arithmetic.  Any number of consecutive ticks under one camera moves
    the node exactly as a single tick whose delta is the sum of theirs. *)
Theorem ticks_compose (camera : Camera) (deltas : list R) (s : Instance)
    (g : Group) :
  groupRef s = Some g ->
  option_map position (groupRef (run s (ticks camera deltas)))
  = option_map position (groupRef (frameCallback camera (elapsed deltas) s)).
Proof.
  intros G.
  rewrite (run_ticks_position camera deltas s g G).
  symmetry. apply frameCallback_position, G.
Qed.

(** X3: in exact real arithmetic, for delta >= 0 a tick never overshoots:
    each coordinate of the node's new position lies between its old value
    and the target's; and a node already at the target stays there, for
    any delta. *)
Theorem tick_no_overshoot (camera : Camera) (delta : R) (s : Instance)
    (g : Group) :
  groupRef s = Some g ->
  let target := positionTargetOf camera s in
  exists g',
    groupRef (frameCallback camera delta s) = Some g' /\
    (0 <= delta ->
     Rmin (Vector3.x (position g)) (Vector3.x target) <= Vector3.x (position g')
       <= Rmax (Vector3.x (position g)) (Vector3.x target) /\
     Rmin (Vector3.y (position g)) (Vector3.y target) <= Vector3.y (position g')
       <= Rmax (Vector3.y (position g)) (Vector3.y target) /\
     Rmin (Vector3.z (position g)) (Vector3.z target) <= Vector3.z (position g')
       <= Rmax (Vector3.z (position g)) (Vector3.z target)) /\
    (position g = target -> position g' = position g).
Proof.
  intros G. cbv zeta.
  pose proof (frameCallback_position camera delta s g G) as H.
  destruct (groupRef (frameCallback camera delta s)) as [g' |];
    [| discriminate H].
  cbn [option_map] in H. injection H as H.
  exists g'. split; [reflexivity |]. rewrite H. split.
  - intros Hd.
    pose proof (exp_decay_range 12 delta ltac:(lra) Hd) as He.
    assert (Between : forall a t,
              Rmin a t <= a + (t - a) * lerpAlpha delta <= Rmax a t).
    { intros a t. unfold lerpAlpha.
      set (e := exp (- delta * 12)) in *.
      unfold Rmin, Rmax. destruct (Rle_dec a t); split; nra. }
    unfold Vector3.lerp; cbn [Vector3.x Vector3.y Vector3.z].
    repeat split; apply Between.
  - intros E. rewrite <- E.
    destruct (position g) as [a b c]. unfold Vector3.lerp; cbn. f_equal; ring.
Qed.

Lemma positionTargetOf_inactive (camera : Camera) (s : Instance) :
  consistent s ->
  isActive (props s) = false ->
  positionTargetOf camera s = restingTarget (props s) (isHovered s).
Proof.
  intros [Dp Vp Dq Vq De Dh Ap Aq G] A.
  unfold positionTargetOf, restingTarget. rewrite A, <- Vp.
  destruct s as [p h g dp dq ed hd tp tq td n].
  unfold tableTarget. cbv zeta.
  cbn [isHovered defaultPosition tmpPosition set_tmpPosition set_tmpQuaternion].
  rewrite Vector3_copy_eq. destruct h; [| reflexivity].
  cbn [tmpPosition set_tmpPosition].
  destruct (val (memoValue dp)) as [a b c].
  unfold Vector3.add, Vector3.setY; cbn. f_equal; ring.
Qed.

(** X4: a resting component whose own ref holds the node converges to its
    table slot, in exact real arithmetic.  While the active flag is false,
    ticks whose deltas sum to at least 1/eps bring every coordinate of the
    node within eps times its initial distance of the table position
    (px, py, pz), raised by 0.05 along y when hovered. *)
Theorem resting_node_converges (camera : Camera) (deltas : list R)
    (s : Instance) (eps px py pz : R) :
  reachable s ->
  isActive (props s) = false ->
  val (tablePosition (props s)) = (px, py, pz) ->
  0 < eps ->
  / eps <= elapsed deltas ->
  let target :=
    if isHovered s then Vector3.new px (py + 0.05) pz
    else Vector3.new px py pz in
  exists g g',
    groupRef s = Some g /\
    groupRef (run s (ticks camera deltas)) = Some g' /\
    Rabs (Vector3.x (position g') - Vector3.x target)
      <= eps * Rabs (Vector3.x (position g) - Vector3.x target) /\
    Rabs (Vector3.y (position g') - Vector3.y target)
      <= eps * Rabs (Vector3.y (position g) - Vector3.y target) /\
    Rabs (Vector3.z (position g') - Vector3.z target)
      <= eps * Rabs (Vector3.z (position g) - Vector3.z target).
Proof.
  intros Rs A Hp He Hd. cbv zeta.
  pose proof (reachable_consistent s Rs) as C.
  destruct (groupRef s) as [g |] eqn:G; [| destruct (group_attached s C G)].
  pose proof (run_ticks_position camera deltas s g G) as H.
  rewrite (positionTargetOf_inactive camera s C A) in H.
  assert (T : restingTarget (props s) (isHovered s)
              = if isHovered s then Vector3.new px (py + 0.05) pz
                else Vector3.new px py pz).
  { unfold restingTarget, HOVER_LIFT. rewrite Hp.
    destruct (isHovered s); [| reflexivity].
    unfold Vector3.add; cbn. f_equal; ring. }
  rewrite T in H. clear T.
  destruct (groupRef (run s (ticks camera deltas))) as [g' |];
    [| discriminate H].
  cbn [option_map] in H. injection H as H.
  exists g, g'. split; [reflexivity | split; [reflexivity |]].
  rewrite H.
  set (t := if isHovered s then _ else _).
  pose proof (exp_decay_small 12 eps (elapsed deltas) ltac:(lra) He Hd) as Hs.
  pose proof (exp_pos (- elapsed deltas * 12)) as Hpos.
  assert (Close : forall a b,
            Rabs (a + (b - a) * lerpAlpha (elapsed deltas) - b)
            <= eps * Rabs (a - b)).
  { intros a b. unfold lerpAlpha.
    set (e := exp (- elapsed deltas * 12)) in *.
    replace (a + (b - a) * (1 - e) - b) with (e * (a - b)) by ring.
    rewrite Rabs_mult, (Rabs_pos_eq e) by lra.
    apply Rmult_le_compat_r; [apply Rabs_pos | lra]. }
  unfold Vector3.lerp; cbn [Vector3.x Vector3.y Vector3.z].
  repeat split; apply Close.
Qed.

(** ** Pointer events and renders *)

(** X5: a pointer event changes nothing of the component but the hovered
    flag: pointer-over sets it unless the component is active, pointer-out
    clears it in every state, press and click leave it. *)
Theorem pointer_event_changes_only_hover (s : Instance) (e : Event) :
  reachable s ->
  fst (step s (Pointer e))
  = set_isHovered
      match e with
      | PointerOver => if isActive (props s) then isHovered s else true
      | PointerOut => false
      | PointerDown | Click => isHovered s
      end s.
Proof.
  intros Rs. pose proof (reachable_consistent s Rs) as C.
  assert (Same : set_isHovered (isHovered s) s = s) by (destruct s; reflexivity).
  destruct e; cbn [step fst handlerOf].
  - unfold handlePointerOver.
    destruct (isActive (props s)); cbn [negb fold_left].
    + symmetry; exact Same.
    + apply applyAction_SetIsHovered, C.
  - unfold handlePointerOut. cbn [fold_left].
    apply applyAction_SetIsHovered, C.
  - symmetry; exact Same.
  - symmetry; exact Same.
Qed.

(** X6: a render that sets or keeps the active flag never touches hovered:
    a frame hovered when it is activated stays hovered until the pointer
    leaves it. *)
Theorem activation_keeps_hover (s : Instance) (p : Props) :
  reachable s ->
  isActive p = true ->
  isHovered (fst (step s (Render p))) = isHovered s.
Proof.
  intros Rs A. cbn [step fst].
  rewrite rerender_isHovered by (apply reachable_consistent, Rs).
  rewrite A. unfold hoverEffect. cbn [negb].
  destruct (Bool.eqb _ _); reflexivity.
Qed.

(** X7: after the render that deactivates the component the pointer cursor
    is released: the flag given to useCursor is false, whatever hovered was
    before. *)
Theorem deactivation_releases_cursor (b : FrameBox) (s : Instance) (p : Props) :
  reachable s ->
  isActive (props s) = true ->
  isActive p = false ->
  let s' := fst (step s (Render p)) in
  cursorPointer (BirthdayLove b (props s') (isHovered s')) = false.
Proof.
  intros Rs A A'. cbv zeta. cbn [step fst].
  rewrite rerender_props.
  rewrite rerender_isHovered by (apply reachable_consistent, Rs).
  unfold BirthdayLove. cbn [cursorPointer].
  rewrite A, A'. reflexivity.
Qed.

Lemma frameCallback_tmpPosition (camera : Camera) (delta : R) (s : Instance) :
  groupRef s <> None ->
  tmpPosition (frameCallback camera delta s) = positionTargetOf camera s.
Proof.
  intros G. unfold frameCallback, positionTargetOf.
  destruct (groupRef s); [reflexivity | congruence].
Qed.

(** X8: a stale hover never lifts the frame once it is deactivated: the
    first tick after the deactivating render already targets the table
    position itself, whether or not the frame was hovered while active. *)
Theorem no_lift_after_deactivation (camera : Camera) (delta : R)
    (s : Instance) (p : Props) :
  reachable s ->
  admissible s (Render p) ->
  isActive (props s) = true ->
  isActive p = false ->
  tmpPosition (frameCallback camera delta (fst (step s (Render p))))
  = Vector3.fromArray (val (tablePosition p)).
Proof.
  intros Rs Ad A A'.
  pose proof (reachable_consistent s Rs) as C.
  pose proof (consistent_step s (Render p) C Ad) as C'.
  rewrite frameCallback_tmpPosition by (apply (group_attached _ C')).
  rewrite positionTargetOf_inactive;
    [| exact C' | cbn [step fst]; rewrite rerender_props; exact A'].
  cbn [step fst]. rewrite rerender_props.
  rewrite rerender_isHovered by exact C.
  rewrite A, A'. reflexivity.
Qed.

(** X9: a render that passes the same tablePosition and tableRotation
    arrays as the one before leaves the scene node, the memoised table pose
    and both pose targets untouched, whatever changed among the
    component's own props (id, image, imageScale, imageOffset, imageInset,
    isActive): activating or deactivating the frame does not snap it to
    the table. *)
Theorem render_with_same_tables_keeps_pose (s : Instance) (p : Props) :
  reachable s ->
  ident (tablePosition p) = ident (tablePosition (props s)) ->
  ident (tableRotation p) = ident (tableRotation (props s)) ->
  let s' := fst (step s (Render p)) in
  groupRef s' = groupRef s /\
  defaultPosition s' = defaultPosition s /\
  defaultQuaternion s' = defaultQuaternion s /\
  tmpPosition s' = tmpPosition s /\
  tmpQuaternion s' = tmpQuaternion s.
Proof.
  intros Rs Ep Eq. cbv zeta. cbn [step fst].
  destruct (reachable_consistent s Rs) as [Dp Vp Dq Vq De Dh Ap Aq G].
  unfold rerender, useMemo.
  rewrite Dp, Dq, Ep, Eq, !depsEqual_refl. cbv zeta.
  unfold effectFires. rewrite De, depsEqual_refl.
  repeat split.
Qed.

(** X10: while the component is active the position target is a function
    of the camera alone: neither the hover flag, the table pose, the delta
    nor the previous target enters it. *)
Theorem active_target_depends_on_camera_only (camera : Camera)
    (delta1 delta2 : R) (s1 s2 : Instance) :
  groupRef s1 <> None ->
  groupRef s2 <> None ->
  isActive (props s1) = true ->
  isActive (props s2) = true ->
  tmpPosition (frameCallback camera delta1 s1)
  = tmpPosition (frameCallback camera delta2 s2).
Proof.
  intros G1 G2 A1 A2.
  rewrite !frameCallback_tmpPosition by assumption.
  unfold positionTargetOf. rewrite A1, A2.
  unfold activeTarget. cbv zeta.
  cbn [tmpPosition tmpDirection set_tmpPosition set_tmpDirection].
  destruct (Rlt_dec _ _); reflexivity.
Qed.

(** X11: a frame tick writes the scene node and the scratch objects and
    nothing else: props, hover flag, memo cells, effect dependencies and
    the allocator are as before; without an attached node it does nothing
    at all. *)
Theorem tick_writes_node_and_scratch_only (camera : Camera) (delta : R)
    (s : Instance) :
  let s' := frameCallback camera delta s in
  props s' = props s /\
  isHovered s' = isHovered s /\
  defaultPosition s' = defaultPosition s /\
  defaultQuaternion s' = defaultQuaternion s /\
  poseEffectDeps s' = poseEffectDeps s /\
  hoverEffectDeps s' = hoverEffectDeps s /\
  heapNext s' = heapNext s /\
  (groupRef s = None -> s' = s).
Proof.
  cbv zeta. unfold frameCallback.
  destruct (groupRef s) as [g |].
  - rewrite (target_frame camera s). repeat split. discriminate.
  - repeat split.
Qed.

(** X12: for a component whose own ref holds the node, a render that
    passes new table arrays while the component is active snaps the node
    to the new table pose, position (px, py, pz) and quaternion
    setFromEuler of (rx, ry, rz), but leaves the orientation target alone,
    so the next tick blends the node from there back toward the
    camera-front position and toward the orientation target as it was
    before the render, not toward the new table orientation. *)
Theorem table_change_while_active (camera : Camera) (delta : R)
    (s : Instance) (p : Props) (px py pz rx ry rz : R) :
  reachable s ->
  admissible s (Render p) ->
  isActive p = true ->
  val (tablePosition p) = (px, py, pz) ->
  val (tableRotation p) = (rx, ry, rz) ->
  ident (tablePosition p) <> ident (tablePosition (props s)) \/
  ident (tableRotation p) <> ident (tableRotation (props s)) ->
  let s' := fst (step s (Render p)) in
  groupRef s'
  = Some (mkGroup (Vector3.new px py pz)
            (setFromEuler (Euler.new rx ry rz))) /\
  tmpQuaternion s' = tmpQuaternion s /\
  groupRef (frameCallback camera delta s')
  = Some (mkGroup
            (Vector3.lerp (Vector3.new px py pz)
               (positionTargetOf camera s') (lerpAlpha delta))
            (slerp (setFromEuler (Euler.new rx ry rz))
               (tmpQuaternion s) (slerpAlpha delta))).
Proof.
  intros Rs Ad A Hp Hr Hchg. cbv zeta. cbn [step fst].
  pose proof (reachable_consistent s Rs) as C.
  pose proof (rerender_groupRef_changed s p C Ad Hchg) as G.
  rewrite (tablePose_components p px py pz rx ry rz Hp Hr) in G.
  split; [exact G | split; [apply rerender_tmpQuaternion |]].
  unfold frameCallback, positionTargetOf.
  rewrite G, rerender_props, A.
  rewrite <- (rerender_tmpQuaternion p s).
  unfold activeTarget. cbv zeta.
  destruct (Rlt_dec _ _); reflexivity.
Qed.

End Component.

(** ** The statements at sample inputs

    The section variables are instantiated with [Quaternion.setFromEulerXYZ]
    and [Quaternion.blend]. *)

(** The camera of the spec's scenario: the target is (0, 0.95, -1.5) and
    the floor does not apply. *)
Lemma active_target_position_sample :
  let target :=
    tmpPosition
      (frameCallback Quaternion.blend sampleCamera (1 / 60)
         (mount Quaternion.setFromEulerXYZ (with_isActive true sampleProps) sampleNode)) in
  Vector3.x target = 0 /\ Vector3.y target = 0.95 /\ Vector3.z target = -1.5.
Proof.
  cbv zeta.
  destruct (active_target_position Quaternion.blend sampleCamera (1 / 60)
              (mount Quaternion.setFromEulerXYZ (with_isActive true sampleProps) sampleNode))
    as (Hx & Hz & _ & Hy & _).
  - discriminate.
  - reflexivity.
  - split; [| split].
    + etransitivity; [exact Hx | cbn; lra].
    + etransitivity; [apply Hy; cbn; lra | cbn; lra].
    + etransitivity; [exact Hz | cbn; lra].
Defined.

Lemma setFromEulerXYZ_half_turn_x :
  Quaternion.setFromEulerXYZ (Euler.new PI 0 0) = Quaternion.mk 1 0 0 0.
Proof.
  unfold Quaternion.setFromEulerXYZ. cbn [Euler.x Euler.y Euler.z].
  replace (0 / 2) with 0 by lra.
  rewrite sin_PI2, cos_PI2, sin_0, cos_0. f_equal; ring.
Qed.

(** The resting frame at the turned table slot, not hovered and hovered:
    the targets are (3, 0, 1) and (3, 0.05, 1), the orientation target the
    half turn about x. *)
Lemma table_target_pose_sample :
  (tmpPosition
     (frameCallback Quaternion.blend sampleCamera (1 / 60)
        (mount Quaternion.setFromEulerXYZ turnedProps sampleNode))
   = Vector3.new 3 0 1 /\
   tmpQuaternion
     (frameCallback Quaternion.blend sampleCamera (1 / 60)
        (mount Quaternion.setFromEulerXYZ turnedProps sampleNode))
   = Quaternion.mk 1 0 0 0) /\
  tmpPosition
    (frameCallback Quaternion.blend sampleCamera (1 / 60)
       (fst (step Quaternion.setFromEulerXYZ Quaternion.blend
               (mount Quaternion.setFromEulerXYZ turnedProps sampleNode)
               (Pointer PointerOver))))
  = Vector3.new 3 (0 + 0.05) 1.
Proof.
  split.
  - destruct (table_target_pose Quaternion.setFromEulerXYZ Quaternion.blend
                sampleCamera (1 / 60)
                (mount Quaternion.setFromEulerXYZ turnedProps sampleNode)
                3 0 1 PI 0 0) as (_ & Hpos & Hrot).
    + apply reachable_mount.
    + reflexivity.
    + reflexivity.
    + reflexivity.
    + split; [apply Hpos; reflexivity |].
      rewrite Hrot. apply setFromEulerXYZ_half_turn_x.
  - destruct (table_target_pose Quaternion.setFromEulerXYZ Quaternion.blend
                sampleCamera (1 / 60)
                (fst (step Quaternion.setFromEulerXYZ Quaternion.blend
                        (mount Quaternion.setFromEulerXYZ turnedProps sampleNode)
                        (Pointer PointerOver)))
                3 0 1 PI 0 0) as (Hpos & _ & _).
    + apply reachable_step; [apply reachable_mount | exact I].
    + reflexivity.
    + reflexivity.
    + reflexivity.
    + apply Hpos. reflexivity.
Defined.




Lemma image_plane_layout_sample :
  imageWidth sampleBox sampleProps = 2 * 0.82 /\
  imageHeight sampleBox sampleProps = 3 * 0.82.
Proof.
  destruct (image_plane_layout sampleBox sampleProps false)
    as (_ & _ & H & _).
  apply H. reflexivity.
Defined.

(** Hover the resting frame, activate it, then deactivate it. *)
Lemma deactivation_clears_hover_sample :
  isHovered
    (fst (step Quaternion.setFromEulerXYZ Quaternion.blend
            (fst (step Quaternion.setFromEulerXYZ Quaternion.blend
                    (fst (step Quaternion.setFromEulerXYZ Quaternion.blend (mount Quaternion.setFromEulerXYZ sampleProps sampleNode)
                            (Pointer PointerOver)))
                    (Render (with_isActive true sampleProps))))
            (Render sampleProps)))
  = false.
Proof.
  apply deactivation_clears_hover.
  - apply reachable_step; [apply reachable_step; [apply reachable_mount |] |].
    + exact I.
    + split; intros _; reflexivity.
  - reflexivity.
  - reflexivity.
  - reflexivity.
Defined.

Lemma hover_set_only_by_pointer_over_sample :
  isHovered (fst (step Quaternion.setFromEulerXYZ Quaternion.blend (mount Quaternion.setFromEulerXYZ sampleProps sampleNode) (Pointer PointerOver)))
  = true.
Proof.
  destruct (hover_set_only_by_pointer_over
              Quaternion.setFromEulerXYZ Quaternion.blend) as (_ & _ & _ & H).
  apply H.
  - apply reachable_mount.
  - reflexivity.
Defined.

(** C7 as stated fails: a resting frame under the pointer is a reachable
    state with the active flag false and hovered true. *)
Lemma inactive_and_hovered_reachable :
  let s := fst (step Quaternion.setFromEulerXYZ Quaternion.blend (mount Quaternion.setFromEulerXYZ sampleProps sampleNode) (Pointer PointerOver)) in
  reachable Quaternion.setFromEulerXYZ Quaternion.blend s /\ isActive (props s) = false /\ isHovered s = true.
Proof.
  cbv zeta. split; [| split].
  - apply reachable_step; [apply reachable_mount | exact I].
  - reflexivity.
  - reflexivity.
Qed.

Lemma imageInset_unused_sample :
  observe sampleBox
    (run Quaternion.setFromEulerXYZ Quaternion.blend
       (mount Quaternion.setFromEulerXYZ
          (with_imageInset (Some 0.5) sampleProps) sampleNode)
       [Pointer PointerOver; Frame sampleCamera (1 / 60)])
  = observe sampleBox
      (run Quaternion.setFromEulerXYZ Quaternion.blend
         (mount Quaternion.setFromEulerXYZ sampleProps sampleNode)
         [Pointer PointerOver; Frame sampleCamera (1 / 60)]).
Proof.
  destruct (imageInset_unused Quaternion.setFromEulerXYZ Quaternion.blend)
    as (_ & H).
  apply H.
  - reflexivity.
  - repeat constructor.
Defined.

(** The frame mounts at the turned table slot, and a resting frame is
    moved there by a render that passes new arrays: the node is at
    (3, 0, 1), turned half a turn about x. *)
Lemma table_pose_applied_at_once_sample :
  groupRef (mount Quaternion.setFromEulerXYZ turnedProps sampleNode)
  = Some (mkGroup (Vector3.new 3 0 1) (Quaternion.mk 1 0 0 0)) /\
  groupRef
    (fst (step Quaternion.setFromEulerXYZ Quaternion.blend
            (mount Quaternion.setFromEulerXYZ sampleProps sampleNode)
            (Render turnedProps)))
  = Some (mkGroup (Vector3.new 3 0 1) (Quaternion.mk 1 0 0 0)).
Proof.
  destruct (table_pose_applied_at_once
              Quaternion.setFromEulerXYZ Quaternion.blend 3 0 1 PI 0 0)
    as (Hm & Hr & _).
  rewrite <- setFromEulerXYZ_half_turn_x. split.
  - apply Hm; reflexivity.
  - apply Hr.
    + apply reachable_mount.
    + split; intros E; discriminate E.
    + reflexivity.
    + reflexivity.
    + left. discriminate.
Defined.

(** C10 as stated fails: when the caller passes a ref of its own among the
    pass-through props, it replaces [ref={groupRef}], [groupRef.current]
    stays null, the effect returns at its guard and the node is placed
    neither at mount nor when the table arrays change. *)
Lemma caller_ref_leaves_node_unplaced :
  groupRef (mountWith Quaternion.setFromEulerXYZ sampleProps None) = None /\
  groupRef
    (fst (step Quaternion.setFromEulerXYZ Quaternion.blend
            (mountWith Quaternion.setFromEulerXYZ sampleProps None)
            (Render turnedProps)))
  = None.
Proof. split; reflexivity. Qed.

(** Two ticks of 1/60 s and 1/30 s against one tick of their sum, on a
    frame that has just been made active at its table slot (1, 0, 2) and
    moves toward the camera-front target, whose x is 0. *)
Lemma ticks_compose_sample :
  exists v,
    option_map position
      (groupRef
         (run Quaternion.setFromEulerXYZ Quaternion.blend
            (mount Quaternion.setFromEulerXYZ
               (with_isActive true sampleProps) sampleNode)
            (ticks sampleCamera [1 / 60; 1 / 30])))
    = Some v /\
    option_map position
      (groupRef
         (frameCallback Quaternion.blend sampleCamera
            (elapsed [1 / 60; 1 / 30])
            (mount Quaternion.setFromEulerXYZ
               (with_isActive true sampleProps) sampleNode)))
    = Some v /\
    0 < Vector3.x v < 1.
Proof.
  pose proof (ticks_compose Quaternion.setFromEulerXYZ Quaternion.blend
                sampleCamera [1 / 60; 1 / 30]
                (mount Quaternion.setFromEulerXYZ
                   (with_isActive true sampleProps) sampleNode)
                _ eq_refl) as H.
  eexists. split; [rewrite H; reflexivity | split; [reflexivity |]].
  assert (E : 0 < exp (- (1 / 60 + (1 / 30 + 0)) * 12) < 1).
  { split; [apply exp_pos |].
    pose proof (exp_increasing (- (1 / 60 + (1 / 30 + 0)) * 12) 0
                  ltac:(lra)) as Hlt.
    rewrite exp_0 in Hlt. exact Hlt. }
  unfold positionTargetOf, activeTarget, getWorldDirection, elapsed, lerpAlpha,
    CAMERA_DISTANCE, CAMERA_Y_FLOOR, cameraOffset.
  cbn -[Rlt_dec exp].
  destruct (Rlt_dec _ _); cbn -[exp]; lra.
Defined.

Lemma tick_no_overshoot_sample :
  exists g',
    groupRef
      (frameCallback Quaternion.blend sampleCamera (1 / 60)
         (mount Quaternion.setFromEulerXYZ
            (with_isActive true sampleProps) sampleNode))
    = Some g'.
Proof.
  destruct (tick_no_overshoot Quaternion.blend sampleCamera (1 / 60)
              (mount Quaternion.setFromEulerXYZ
                 (with_isActive true sampleProps) sampleNode)
              _ eq_refl) as (g' & H & _).
  exists g'. exact H.
Defined.

(** The hovered resting frame sits at (1, 0, 2) and is lifted toward
    (1, 0.05, 2): after two ticks of one second its height is within half
    the initial distance of 0.05, and its x has not left 1. *)
Lemma resting_node_converges_sample :
  exists g',
    groupRef
      (run Quaternion.setFromEulerXYZ Quaternion.blend
         (fst (step Quaternion.setFromEulerXYZ Quaternion.blend
                 (mount Quaternion.setFromEulerXYZ sampleProps sampleNode)
                 (Pointer PointerOver)))
         (ticks sampleCamera [1; 1]))
    = Some g' /\
    Rabs (Vector3.x (position g') - 1) <= 1 / 2 * Rabs (1 - 1) /\
    Rabs (Vector3.y (position g') - (0 + 0.05))
      <= 1 / 2 * Rabs (0 - (0 + 0.05)).
Proof.
  destruct (resting_node_converges Quaternion.setFromEulerXYZ Quaternion.blend
              sampleCamera [1; 1]
              (fst (step Quaternion.setFromEulerXYZ Quaternion.blend
                      (mount Quaternion.setFromEulerXYZ sampleProps sampleNode)
                      (Pointer PointerOver)))
              (1 / 2) 1 0 2)
    as (g & g' & Hg & Hg' & Hx & Hy & _).
  - apply reachable_step; [apply reachable_mount | exact I].
  - reflexivity.
  - reflexivity.
  - lra.
  - unfold elapsed; cbn [fold_right]. lra.
  - injection Hg as <-.
    exists g'. split; [exact Hg' | split; [exact Hx | exact Hy]].
Defined.

Lemma pointer_event_changes_only_hover_sample :
  fst (step Quaternion.setFromEulerXYZ Quaternion.blend
         (mount Quaternion.setFromEulerXYZ sampleProps sampleNode)
         (Pointer PointerOver))
  = set_isHovered true (mount Quaternion.setFromEulerXYZ sampleProps sampleNode).
Proof.
  apply (pointer_event_changes_only_hover Quaternion.setFromEulerXYZ
           Quaternion.blend
           (mount Quaternion.setFromEulerXYZ sampleProps sampleNode)
           PointerOver).
  apply reachable_mount.
Defined.

(** Hover the resting frame, then activate it: it is still hovered. *)
Lemma activation_keeps_hover_sample :
  isHovered
    (fst (step Quaternion.setFromEulerXYZ Quaternion.blend
            (fst (step Quaternion.setFromEulerXYZ Quaternion.blend
                    (mount Quaternion.setFromEulerXYZ sampleProps sampleNode)
                    (Pointer PointerOver)))
            (Render (with_isActive true sampleProps))))
  = true.
Proof.
  rewrite activation_keeps_hover.
  - reflexivity.
  - apply reachable_step; [apply reachable_mount | exact I].
  - reflexivity.
Defined.

Lemma deactivation_releases_cursor_sample :
  let s' :=
    fst (step Quaternion.setFromEulerXYZ Quaternion.blend
           (mount Quaternion.setFromEulerXYZ
              (with_isActive true sampleProps) sampleNode)
           (Render sampleProps)) in
  cursorPointer (BirthdayLove sampleBox (props s') (isHovered s')) = false.
Proof.
  apply deactivation_releases_cursor.
  - apply reachable_mount.
  - reflexivity.
  - reflexivity.
Defined.

Lemma no_lift_after_deactivation_sample :
  tmpPosition
    (frameCallback Quaternion.blend sampleCamera (1 / 60)
       (fst (step Quaternion.setFromEulerXYZ Quaternion.blend
               (mount Quaternion.setFromEulerXYZ
                  (with_isActive true sampleProps) sampleNode)
               (Render sampleProps))))
  = Vector3.new 1 0 2.
Proof.
  apply (no_lift_after_deactivation Quaternion.setFromEulerXYZ Quaternion.blend
           sampleCamera (1 / 60)
           (mount Quaternion.setFromEulerXYZ
              (with_isActive true sampleProps) sampleNode)
           sampleProps).
  - apply reachable_mount.
  - split; intros _; reflexivity.
  - reflexivity.
  - reflexivity.
Defined.

Lemma render_with_same_tables_keeps_pose_sample :
  groupRef
    (fst (step Quaternion.setFromEulerXYZ Quaternion.blend
            (mount Quaternion.setFromEulerXYZ sampleProps sampleNode)
            (Render (with_isActive true sampleProps))))
  = groupRef (mount Quaternion.setFromEulerXYZ sampleProps sampleNode).
Proof.
  destruct (render_with_same_tables_keeps_pose Quaternion.setFromEulerXYZ
              Quaternion.blend
              (mount Quaternion.setFromEulerXYZ sampleProps sampleNode)
              (with_isActive true sampleProps)) as (H & _).
  - apply reachable_mount.
  - reflexivity.
  - reflexivity.
  - exact H.
Defined.

Lemma active_target_depends_on_camera_only_sample :
  tmpPosition
    (frameCallback Quaternion.blend sampleCamera (1 / 60)
       (mount Quaternion.setFromEulerXYZ
          (with_isActive true sampleProps) sampleNode))
  = tmpPosition
      (frameCallback Quaternion.blend sampleCamera (1 / 30)
         (set_isHovered true
            (mount Quaternion.setFromEulerXYZ
               (with_isActive true sampleProps) sampleNode))).
Proof.
  apply active_target_depends_on_camera_only.
  - discriminate.
  - discriminate.
  - reflexivity.
  - reflexivity.
Defined.

(** A tick on an instance whose node is detached. *)
Lemma tick_writes_node_and_scratch_only_sample :
  frameCallback Quaternion.blend sampleCamera (1 / 60)
    (set_groupRef None (mount Quaternion.setFromEulerXYZ sampleProps sampleNode))
  = set_groupRef None (mount Quaternion.setFromEulerXYZ sampleProps sampleNode).
Proof.
  apply (tick_writes_node_and_scratch_only Quaternion.blend sampleCamera (1 / 60)
           (set_groupRef None
              (mount Quaternion.setFromEulerXYZ sampleProps sampleNode))).
  reflexivity.
Defined.

(** The table slot is moved and turned while the frame is shown in front
    of the camera: the node snaps to (3, 0, 1) and the half turn, while
    the orientation target is still the initial identity. *)
Lemma table_change_while_active_sample :
  groupRef
    (fst (step Quaternion.setFromEulerXYZ Quaternion.blend
            (mount Quaternion.setFromEulerXYZ
               (with_isActive true sampleProps) sampleNode)
            (Render (with_isActive true turnedProps))))
  = Some (mkGroup (Vector3.new 3 0 1) (Quaternion.mk 1 0 0 0)) /\
  tmpQuaternion
    (fst (step Quaternion.setFromEulerXYZ Quaternion.blend
            (mount Quaternion.setFromEulerXYZ
               (with_isActive true sampleProps) sampleNode)
            (Render (with_isActive true turnedProps))))
  = Quaternion.identity.
Proof.
  destruct (table_change_while_active Quaternion.setFromEulerXYZ
              Quaternion.blend sampleCamera (1 / 60)
              (mount Quaternion.setFromEulerXYZ
                 (with_isActive true sampleProps) sampleNode)
              (with_isActive true turnedProps) 3 0 1 PI 0 0)
    as (Hsnap & Htarget & _).
  - apply reachable_mount.
  - split; intros E; discriminate E.
  - reflexivity.
  - reflexivity.
  - reflexivity.
  - left. discriminate.
  - split.
    + rewrite Hsnap, setFromEulerXYZ_half_turn_x. reflexivity.
    + rewrite Htarget. reflexivity.
Defined.

(** Under the tilted camera the target rises with the forward direction:
    (0, 1 + 0.6 * 1.5 - 0.05, -0.8 * 1.5). *)
Lemma active_target_tilted_camera :
  tmpPosition
    (frameCallback Quaternion.blend tiltedCamera (1 / 60)
       (mount Quaternion.setFromEulerXYZ
          (with_isActive true sampleProps) sampleNode))
  = Vector3.new (0 + 0 * 1.5 + 0) (1 + 0.6 * 1.5 + -0.05) (0 + -0.8 * 1.5 + 0).
Proof.
  unfold frameCallback, mount, mountWith, useMemo. cbn -[Rlt_dec].
  unfold activeTarget, getWorldDirection, CAMERA_DISTANCE, CAMERA_Y_FLOOR,
    cameraOffset.
  cbn -[Rlt_dec].
  destruct (Rlt_dec _ _) as [L | _]; [lra | reflexivity].
Qed.

(** A StrictMode-style life: the mount and one texture change each render
    twice, the first result being discarded.  Four materials are made,
    the two committed ones are disposed at unmount, the two dropped ones
    never. *)
Lemma material_double_render_sample :
  let h := runMaterial 7%nat 1%nat [Discarded 8%nat; Committed 8%nat] in
  materialNext h = 4%nat /\
  unmountMaterial h = [3%nat; 1%nat] /\
  dropped h = [2%nat; 0%nat].
Proof. cbv zeta. repeat split. Qed.
